(** * vscode-updater: a shallow embedding of the update cycle and its scheduler

    The TypeScript sources embedded here are
    - [src/utils.ts]      : [notify], [exists], [setRun], [exit],
                            [formatMillisecondes];
    - [src/config.ts]     : [checkConfig], [readConfig], the [Config] getters;
    - [src/updater.ts]    : the [Updater] class;
    - [vscode-updater.ts] : [start] and [intervalLoop].

    The program is sequential: every promise is awaited where it is created.
    It is embedded as a state-and-exception monad over a [World] that holds
    the module-level variables of the three files, the list of effects
    performed so far, and a counter of the interactions with the outside.
    What the outside answers (clock, files, network, processes) is given by
    an environment [Env] of functions of that counter, so every behaviour of
    the outside is one environment. *)

From Stdlib Require Import ZArith List String Ascii Bool Lia DecimalString.
Import ListNotations.
Open Scope string_scope.
Open Scope Z_scope.

(** ** JavaScript values used by the program *)

(** Numbers: the program only computes with integers (milliseconds, seconds)
    and may meet [NaN] when a header is not numeric. JavaScript computes
    with doubles, which are exact on the integers up to 2^53 in magnitude:
    [Num z] is the double of that value, and the arithmetic written here on
    [Z] is the arithmetic of the code as long as the operands and the
    result stay in that range. A theorem that depends on the value of such
    a result carries the bound as a hypothesis. *)
Inductive num : Type :=
| Num (z : Z)
| NaN.

(** The largest time value of JavaScript, in milliseconds (8.64e15, below
    2^53): the bound taken for clock readings and durations. *)
Definition max_time : Z := 8640000000000000.

(** [a > b] on numbers; any comparison with [NaN] is false. *)
Definition num_gt (a : num) (b : Z) : bool :=
  match a with
  | Num z => z >? b
  | NaN => false
  end.

(** [a * k - b], as in [Number(resetHeader) * 1000 - Date.now()]; the
    double of the code has this value when [a * k] and [b] are integers
    between 0 and [max_time]. *)
Definition num_scale_sub (a : num) (k b : Z) : num :=
  match a with
  | Num z => Num (z * k - b)
  | NaN => NaN
  end.

(** Untyped JSON data, as far as [checkConfig] inspects it. *)
Inductive JsVal : Type :=
| JUndefined
| JNull
| JBool (b : bool)
| JNum (n : num)
| JStr (s : string)
| JObject.

Definition str_truthy (s : string) : bool := negb (s =? "")%string.

Definition opt_truthy (o : option string) : bool :=
  match o with
  | Some s => str_truthy s
  | None => false
  end.

(** The string under [if (x)] when [x] is truthy. *)
Definition truthy_value (o : option string) : option string :=
  match o with
  | Some s => if str_truthy s then Some s else None
  | None => None
  end.

Definition js_truthy (v : JsVal) : bool :=
  match v with
  | JUndefined | JNull => false
  | JBool b => b
  | JNum (Num z) => negb (z =? 0)
  | JNum NaN => false
  | JStr s => str_truthy s
  | JObject => true
  end.

Definition is_string (v : JsVal) : bool :=
  match v with JStr _ => true | _ => false end.

Definition is_number (v : JsVal) : bool :=
  match v with JNum _ => true | _ => false end.

(** A value interpolated in a template literal. *)
Definition interpolate (o : option string) : string :=
  match o with
  | Some s => s
  | None => "undefined"
  end.

Definition string_of_Z (z : Z) : string := NilEmpty.string_of_int (Z.to_int z).

Definition nl : string := String (ascii_of_nat 10) "".

(** [haystack.includes(needle)] *)
Definition includes (haystack needle : string) : bool :=
  match String.index 0 needle haystack with
  | Some _ => true
  | None => false
  end.

(** ** Errors and results *)

Record Error : Type := mkError { message : string; stack : string }.

(** What the outside answers to a call that can fail. *)
Inductive Answer (A : Type) : Type :=
| Gives (a : A)
| Fails (e : Error).
Arguments Gives {A} a.
Arguments Fails {A} e.

(** How an awaited call ends: it returns, it throws, or the process has
    exited ([Deno.exit]) and nothing runs after it. *)
Inductive Outcome (A : Type) : Type :=
| Ok (a : A)
| Thrown (e : Error)
| Exited.
Arguments Ok {A} a.
Arguments Thrown {A} e.
Arguments Exited {A}.

(** ** Data of the program *)

(** [ConfigData] of config.ts *)
Record ConfigData : Type := mkConfig {
  dir : string;
  interval : Z;
  token : option string
}.

(** [Version] of updater.ts; [zipurl] is [data.zipball_url], which is
    undefined when the reply has no such key. *)
Record Version : Type := mkVersion {
  version : string;
  zipurl : option string
}.

(** The [x-ratelimit-reset] header as [Number(headers.get(...))] reads it:
    absent ([null], read as 0), a number of seconds, or not numeric. *)
Inductive ResetHeader : Type :=
| HAbsent
| HSeconds (z : Z)
| HNotNumeric.

Definition Number (h : ResetHeader) : num :=
  match h with
  | HAbsent => Num 0
  | HSeconds z => Num z
  | HNotNumeric => NaN
  end.

(** The JSON body of the release API, a [Record<string, string>]: the three
    keys the program looks at, each present or not. *)
Record ApiData : Type := mkApiData {
  tag_name : option string;
  zipball_url : option string;
  api_message : option string
}.

Definition Headers : Type := list (string * string).

Fixpoint Headers_set (h : Headers) (k v : string) : Headers :=
  match h with
  | [] => [(k, v)]
  | (k', v') :: t =>
      if (k' =? k)%string then (k, v) :: t else (k', v') :: Headers_set t k v
  end.

(** A [Response] of [fetch]: status line, the one header read, and what
    [res.json()] and [res.arrayBuffer()] give when they are called. *)
Record Response : Type := mkResponse {
  ok : bool;
  status : Z;
  statusText : string;
  x_ratelimit_reset : ResetHeader;
  json : Answer ApiData;
  arrayBuffer : Answer (list Byte.byte)
}.

Record DirEntry : Type := mkDirEntry { isFile : bool; name : string }.

(** The result of reading and parsing ./vscu.json in [checkConfig]. *)
Inductive VscuRead : Type :=
| VscuUnreadable (e : Error)
| VscuMalformed (e : Error)
| VscuParsed (data_dir data_interval : JsVal).

Inductive StatAnswer : Type :=
| Found
| NotFound
| StatError (e : Error).

Inductive Level : Type := LInfo | LError | LDebug.

(** Effects on the outside, in the order they are performed. *)
Inductive Event : Type :=
| EvFetch (url : string) (headers : Headers)
| EvWriteFile (path : string) (data : list Byte.byte)
| EvDecompress (archive target : string)
| EvRemove (path : string)
| EvCommand (cmd : string) (args : list string)
| EvShow (title body : string)
| EvNotifyDelay (ms : Z)
| EvSleep (ms : Z)
| EvLog (lvl : Level) (msg : string)
| EvSetRun (b : bool)
| EvCloseLog
| EvExit.

(** ** The outside *)

(** Each field answers the interaction made at a given count of
    interactions. *)
Record Env : Type := mkEnv {
  env_now : nat -> Z;                          (* Date.now() *)
  env_vscu : nat -> Answer ConfigData;         (* read and parse ./vscu.json *)
  env_readDir : nat -> Answer (list DirEntry); (* Deno.readDir("./") *)
  env_vscu_raw : nat -> VscuRead;              (* the same file, untyped *)
  env_stat : nat -> StatAnswer;                (* Deno.statSync *)
  env_manifest : nat -> Answer (option string);(* package.json: json.version *)
  env_fetch : nat -> string -> Answer Response;(* fetch(url) *)
  env_write : nat -> Answer unit;              (* Deno.writeFileSync *)
  env_decompress : nat -> Answer unit;         (* zip: decompress *)
  env_remove : nat -> Answer unit;             (* Deno.removeSync *)
  env_tasklist : nat -> Answer string;         (* stdout of the command *)
  env_setRun : nat -> Answer unit;             (* writing the run marker *)
  env_normalize : string -> string;            (* path: normalize *)
  env_tempDir : string;                        (* Deno.makeTempDir() *)
  env_debug : bool;                            (* DEBUG is set *)
  env_stack : string -> string                 (* stack of new Error(msg) *)
}.

(** ** The program state *)

Record World : Type := mkWorld {
  steps : nat;                       (* interactions with the outside so far *)
  trace : list Event;                (* effects so far, oldest first *)
  reset : num;                       (* Updater.reset *)
  lastMessage : string;              (* utils.ts *)
  lastTime : Z;                      (* utils.ts *)
  lastConfig : option ConfigData;    (* config.ts *)
  lastConfigTime : Z                 (* config.ts *)
}.

(** The state when the process starts: [reset = 100], [lastMessage = ""],
    [lastTime = 0], [lastConfig] undefined, [lastConfigTime = 0]. *)
Definition initial_world : World :=
  mkWorld 0 [] (Num 100) "" 0 None 0.

Definition tick (w : World) : World :=
  mkWorld (S (steps w)) (trace w) (reset w) (lastMessage w) (lastTime w)
          (lastConfig w) (lastConfigTime w).

Definition add_event (e : Event) (w : World) : World :=
  mkWorld (steps w) (trace w ++ [e]) (reset w) (lastMessage w) (lastTime w)
          (lastConfig w) (lastConfigTime w).

Definition set_reset (r : num) (w : World) : World :=
  mkWorld (steps w) (trace w) r (lastMessage w) (lastTime w)
          (lastConfig w) (lastConfigTime w).

Definition set_lastMessage (m : string) (w : World) : World :=
  mkWorld (steps w) (trace w) (reset w) m (lastTime w)
          (lastConfig w) (lastConfigTime w).

Definition set_lastTime (t : Z) (w : World) : World :=
  mkWorld (steps w) (trace w) (reset w) (lastMessage w) t
          (lastConfig w) (lastConfigTime w).

Definition set_lastConfig (c : option ConfigData) (w : World) : World :=
  mkWorld (steps w) (trace w) (reset w) (lastMessage w) (lastTime w)
          c (lastConfigTime w).

Definition set_lastConfigTime (t : Z) (w : World) : World :=
  mkWorld (steps w) (trace w) (reset w) (lastMessage w) (lastTime w)
          (lastConfig w) t.

(** ** The monad of awaited computations *)

Definition M (A : Type) : Type := World -> Outcome A * World.

Definition ret {A : Type} (a : A) : M A := fun w => (Ok a, w).

Definition bind {A B : Type} (m : M A) (f : A -> M B) : M B :=
  fun w =>
    match m w with
    | (Ok a, w') => f a w'
    | (Thrown e, w') => (Thrown e, w')
    | (Exited, w') => (Exited, w')
    end.

Definition throw {A : Type} (e : Error) : M A := fun w => (Thrown e, w).

(** [try { body } catch (e) { handler }]: an exit is not an exception. *)
Definition try_catch {A : Type} (body : M A) (handler : Error -> M A) : M A :=
  fun w =>
    match body w with
    | (Thrown e, w') => handler e w'
    | r => r
    end.

Definition gets {A : Type} (f : World -> A) : M A := fun w => (Ok (f w), w).

Definition modify (f : World -> World) : M unit := fun w => (Ok tt, f w).

Definition emit (e : Event) : M unit := modify (add_event e).

Definition when (b : bool) (m : M unit) : M unit := if b then m else ret tt.

Declare Scope prog_scope.
Delimit Scope prog_scope with prog.
Notation "x <- m ;; k" := (bind m (fun x => k))
  (at level 61, m at next level, right associativity) : prog_scope.
Notation "m ;; k" := (bind m (fun _ => k))
  (at level 61, right associativity) : prog_scope.
Open Scope prog_scope.

Section Program.

Variable env : Env.

(** An interaction whose answer cannot fail. *)
Definition ask {A : Type} (f : Env -> nat -> A) : M A :=
  fun w => (Ok (f env (steps w)), tick w).

(** An interaction that returns or throws. *)
Definition answer {A : Type} (f : Env -> nat -> Answer A) : M A :=
  fun w =>
    match f env (steps w) with
    | Gives a => (Ok a, tick w)
    | Fails e => (Thrown e, tick w)
    end.

(** Using what a response already holds ([res.json()]). *)
Definition lift {A : Type} (a : Answer A) : M A :=
  match a with
  | Gives x => ret x
  | Fails e => throw e
  end.

Definition Date_now : M Z := ask env_now.

Definition new_Error (msg : string) : Error := mkError msg (env_stack env msg).

(** The console: vscode-updater.ts replaces [console.log] and
    [console.error] by writers to the log (or to stdout under DEBUG), and
    [console.debug] by a function that does nothing unless DEBUG is set.
    The writes are not awaited and are taken not to fail. The message of an
    event is the arguments joined by a space, without the prefix and the
    date that the writer adds. *)
Definition console_log (msg : string) : M unit := emit (EvLog LInfo msg).
Definition console_error (msg : string) : M unit := emit (EvLog LError msg).
Definition console_debug (msg : string) : M unit :=
  when (env_debug env) (emit (EvLog LDebug msg)).

(** *** utils.ts *)

(** Showing a notification is taken not to fail. *)
Definition notify (title message : string) : M unit :=
  lm <- gets lastMessage ;;
  if (lm =? message)%string then ret tt
  else
    modify (set_lastMessage message) ;;
    lt <- gets lastTime ;;
    wait <- (if lt =? 0 then ret lt
             else now <- Date_now ;; ret (1000 - (now - lt))) ;;
    let ms := wait + 100 in
    emit (EvNotifyDelay ms) ;;
    emit (EvShow title message) ;;
    now <- Date_now ;;
    modify (set_lastTime now).

Definition exists_ (filename : string) : M bool :=
  s <- ask env_stat ;;
  match s with
  | Found => ret true
  | NotFound => ret false
  | StatError e => throw e
  end.

Definition setRun (e : bool) : M unit :=
  emit (EvSetRun e) ;;
  answer env_setRun.

(** [runned] is computed once, when utils.ts is loaded (l.47-52):
    [tempDir] is the directory that [Deno.makeTempDir()] has just created,
    the run marker is the file "run" in it, created empty unless it is
    there, and [runned] says whether it reads "true". A directory that has
    just been created holds no file: [in_new_tempDir] is what a file of it
    holds at that moment. *)
Definition in_new_tempDir (file : string) : option string := None.

Definition runFile_at_load : string :=
  match in_new_tempDir "run" with
  | Some content => content
  | None => ""
  end.

Definition runned : bool := (runFile_at_load =? "true")%string.

Definition Deno_exit {A : Type} : M A :=
  fun w => (Exited, add_event EvExit w).

Definition exit (message : option string) : M unit :=
  when (opt_truthy message)
       (notify "Vscode Updater Error" (interpolate message)) ;;
  setRun false ;;
  emit EvCloseLog ;;
  Deno_exit.

(** [Math.floor(x / k)] is written [x / k] and [%] is [Z.rem]: for a
    duration between 0 and [max_time] the doubles of the code have these
    values (the quotients are below 2^43, where a double is within 0.0005
    of the exact quotient). *)
Definition formatMillisecondes (ms : Z) : string :=
  let secondes := ms / 1000 in
  let minutes := secondes / 60 in
  let heures := minutes / 60 in
  let days := heures / 24 in
  let secondesRemaining := Z.rem secondes 60 in
  let minutesRemaining := Z.rem minutes 60 in
  let hoursRemaining := Z.rem heures 24 in
  (if days >? 0 then string_of_Z days ++ " days, " else "") ++
  (if negb (hoursRemaining =? 0)
   then string_of_Z hoursRemaining ++ " heures, " else "") ++
  (if negb (minutesRemaining =? 0)
   then string_of_Z minutesRemaining ++ " minutes et " else "") ++
  string_of_Z secondesRemaining ++ " secondes".

(** *** config.ts *)

Definition checkConfig : M bool :=
  files <- answer env_readDir ;;
  let found :=
    existsb (fun file => isFile file && (name file =? "vscu.json")%string)
            files in
  if negb found then ret false
  else
    r <- ask env_vscu_raw ;;
    match r with
    | VscuUnreadable e => throw e
    | VscuMalformed e =>
        try_catch (throw e)
          (fun e =>
             console_error ("Error in configuration file: " ++ message e) ;;
             throw e)
    | VscuParsed data_dir data_interval =>
        try_catch
          (if negb (js_truthy data_dir) then
             throw (new_Error "Invalid configuration: 'dir' is missing.")
           else if negb (is_string data_dir) then
             throw (new_Error "Invalid configuration: 'dir' must be a string.")
           else if negb (js_truthy data_interval)
                   || negb (is_number data_interval) then
             throw
               (new_Error "Invalid configuration: 'interval' must be a number.")
           else ret true)
          (fun e =>
             console_error ("Error in configuration file: " ++ message e) ;;
             throw e)
    end.

Definition readConfig : M ConfigData :=
  try_catch
    (lc <- gets lastConfig ;;
     fresh <- match lc with
              | Some _ =>
                  now <- Date_now ;;
                  lt <- gets lastConfigTime ;;
                  ret (now - lt <? 1000)
              | None => ret false
              end ;;
     match lc, fresh with
     | Some c, true => ret c
     | _, _ =>
         data <- answer env_vscu ;;
         modify (set_lastConfig (Some data)) ;;
         now <- Date_now ;;
         modify (set_lastConfigTime now) ;;
         ret data
     end)
    (fun e => throw e).

Definition config_dir : M string :=
  c <- readConfig ;;
  ret (env_normalize env (dir c)).

Definition config_interval : M Z :=
  c <- readConfig ;;
  if interval c =? 0 then ret (30 * 60 * 1000) else ret (interval c).

Definition config_token : M (option string) :=
  c <- readConfig ;;
  ret (token c).

(** *** updater.ts *)

Definition api_uri : string :=
  "https://api.github.com/repos/microsoft/vscode/releases/latest".

(** [fetch(url)] and [fetch(url, { headers })]. *)
Definition fetch (url : string) (init : option Headers) : M Response :=
  emit (EvFetch url (match init with Some h => h | None => [] end)) ;;
  answer (fun e n => env_fetch e n url).

(** The headers built for the query (the first lines of the [try] block of
    [getLatestVersion]). *)
Definition request_headers : M Headers :=
  let ReqHeaders : Headers := [] in
  tok <- config_token ;;
  if opt_truthy tok then
    tok' <- config_token ;;
    console_debug
      ("Using token for authorization: " ++
       (if opt_truthy tok' then "****" else "No token")) ;;
    tok'' <- config_token ;;
    ret (Headers_set ReqHeaders "Authorization" ("token " ++ interpolate tok''))
  else ret ReqHeaders.

Definition getLatestVersion : M (option Version) :=
  r <- gets reset ;;
  if num_gt r 100 then ret None
  else
    try_catch
      (ReqHeaders <- request_headers ;;
       let uri := api_uri in
       (* ReqHeaders is not given to fetch *)
       res <- fetch uri None ;;
       data <- lift (json res) ;;
       let validity :=
         (match tag_name data with Some _ => true | None => false end
          && match zipball_url data with Some _ => true | None => false end)
         || match api_message data with Some _ => true | None => false end in
       console_debug
         ("Latest version response data validity: " ++ " " ++
          (if validity then "Valid" else "Invalid")) ;;
       let resetHeader := x_ratelimit_reset res in
       match truthy_value (tag_name data) with
       | Some tag => ret (Some (mkVersion tag (zipball_url data)))
       | None =>
           when (opt_truthy (api_message data))
                (console_error
                   ("Error on getting latest infos." ++ nl ++ " " ++
                    interpolate (api_message data))) ;;
           now <- Date_now ;;
           modify (set_reset (num_scale_sub (Number resetHeader) 1000 now)) ;;
           ret None
       end)
      (fun e => throw e).

Definition getLocalVersion : M (option string) :=
  try_catch
    (d <- config_dir ;;
     let path := env_normalize env (d ++ "\resources\app\package.json") in
     found <- exists_ path ;;
     if found then answer env_manifest
     else
       notify "Vscode Updater Error"
         "Unable to find the local version, please check the path in the configuration file." ;;
       ret None)
    (fun e => throw e).

(** A [Version] built by [getLatestVersion] has a truthy [version], so the
    tests [latest.version === undefined] of [checkUpdate] and
    [updateProcess] never hold and are left out. *)
Definition checkUpdate : M bool :=
  try_catch
    (local <- getLocalVersion ;;
     match local with
     | None => ret false
     | Some local =>
         latest <- getLatestVersion ;;
         let needUpdate :=
           match latest with
           | None => false
           | Some latest => negb (version latest =? local)%string
           end in
         when needUpdate (notify "Vscode Updater" "Update available!") ;;
         ret needUpdate
     end)
    (fun e => throw e).

Definition download_url (version : string) : string :=
  "https://vscode.download.prss.microsoft.com/dbazure/download/stable/ea1445cc7016315d0f5728f8e8b12a45dc0a7286/VSCode-win32-x64-"
  ++ version ++ ".zip".

Definition archive_path (version : string) : string :=
  env_normalize env
    (env_tempDir env ++ "\VSCode-win32-x64-" ++ version ++ ".zip").

Definition writeFileSync (path : string) (data : list Byte.byte) : M unit :=
  emit (EvWriteFile path data) ;;
  answer env_write.

Definition decompress (archive target : string) : M unit :=
  emit (EvDecompress archive target) ;;
  answer env_decompress.

Definition removeSync (path : string) : M unit :=
  emit (EvRemove path) ;;
  answer env_remove.

Definition downloadLatest (version : string) : M string :=
  let url := download_url version in
  let archivePath := archive_path version in
  try_catch
    (res <- fetch url None ;;
     if negb (ok res) then
       throw
         (new_Error
            ("Failed to fetch " ++ url ++ " with status " ++
             string_of_Z (status res) ++ ", " ++ statusText res))
     else
       data <- lift (arrayBuffer res) ;;
       writeFileSync archivePath data ;;
       ret archivePath)
    (fun e => throw e).

Definition updateProcess : M unit :=
  try_catch
    (need <- checkUpdate ;;
     if negb need then ret tt
     else
       latest <- getLatestVersion ;;
       match latest with
       | None => ret tt
       | Some latest =>
           console_debug
             ("Downloading latest version: " ++ " " ++ version latest) ;;
           archivePath <- downloadLatest (version latest) ;;
           d <- config_dir ;;
           decompress archivePath d ;;
           removeSync archivePath
       end)
    (fun e => throw e).

Definition isProcessRunning (processName : string) : M bool :=
  try_catch
    (emit (EvCommand "tasklist" ["/FI"; "IMAGENAME eq " ++ processName]) ;;
     outputStr <- answer env_tasklist ;;
     ret (includes outputStr processName))
    (fun e => throw e).

Definition busy_notice : string :=
  "Vscode is running, update skipped..." ++ nl ++
  "Please close vscode and run the updater again".

Definition run : M unit :=
  try_catch
    (need <- checkUpdate ;;
     if need then
       running <- isProcessRunning "Code.exe" ;;
       if negb running then
         latest <- getLatestVersion ;;
         match latest with
         | Some latest =>
             notify "Vscode Updater"
               ("Updating vscode to the latest version " ++ version latest)
         | None => ret tt
         end ;;
         updateProcess
       else
         notify "Vscode Updater" busy_notice
     else ret tt)
    (fun e => throw e).

(** *** vscode-updater.ts *)

Definition error_notice : string :=
  "An error occurred, check the log file for more details in the output.log file.".

(** The delay [intervalLoop] settles on, from the configured interval and
    [updater.reset]. *)
Definition loop_interval (configured : Z) (r : num) : Z :=
  let interval := configured in
  let interval :=
    match r with
    | Num z => if z >? 100 then z else interval
    | NaN => interval
    end in
  if interval <? 100 then 100 else interval.

(** The [try] block of one turn of the loop. *)
Definition intervalLoop_try : M unit :=
  console_log "Checking configuration file..." ;;
  found <- checkConfig ;;
  when (negb found)
       (notify "Vscode Updater Error" "Configuration file not found") ;;
  console_log "Checking for updates..." ;;
  run ;;
  notify "Vscode Updater" "Update completed successfully!".

(** Its [catch] block. *)
Definition intervalLoop_catch (e : Error) : M unit :=
  console_log
    "An error occurred while checking for updates in the interval loop" ;;
  console_error (message e) ;;
  console_error (stack e) ;;
  notify "Vscode Updater Error" error_notice.

(** One turn of [while (true)]. *)
Definition intervalLoop_turn (interval : Z) : M unit :=
  emit (EvSleep interval) ;;
  console_log "Checking for updates in the interval loop..." ;;
  try_catch intervalLoop_try intervalLoop_catch.

(** [fuel] turns of the loop, which has no exit of its own: [Ok tt] after
    them means that all of them were made and the loop goes on. *)
Fixpoint intervalLoop_turns (fuel : nat) (interval : Z) : M unit :=
  match fuel with
  | O => ret tt
  | S fuel' =>
      intervalLoop_turn interval ;;
      intervalLoop_turns fuel' interval
  end.

Definition intervalLoop (fuel : nat) : M unit :=
  configured <- config_interval ;;
  r <- gets reset ;;
  let interval := loop_interval configured r in
  configured' <- config_interval ;;
  when (negb (interval =? configured'))
       (configured'' <- config_interval ;;
        console_log
          ("Interval changed to" ++ " " ++ string_of_Z interval ++ " " ++
           "ms from" ++ " " ++ string_of_Z configured'' ++ " " ++
           "ms, Probably due to rate limiting. Use github token to increase rate limit.") ;;
        notify "Vscode Updater"
          ("Started with timeout of " ++ formatMillisecondes interval ++ "." ++
           nl ++ "Probably due to rate limiting." ++ nl ++
           "Use github token to increase rate limit.")) ;;
  intervalLoop_turns fuel interval.

(** The [try] block of [start]: the check of the configuration and the
    first cycle. *)
Definition start_try : M unit :=
  console_log "Checking configuration file..." ;;
  found <- checkConfig ;;
  when (negb found) (exit (Some "Configuration file not found")) ;;
  d <- config_dir ;;
  i <- config_interval ;;
  console_log
    ("Configuration file found:" ++ nl ++ "Install Dir:" ++ " " ++ d ++
     " " ++ nl ++ "Time interval in ms:" ++ " " ++ string_of_Z i) ;;
  console_log "Checking for updates..." ;;
  run.

(** Its [catch] block. *)
Definition start_catch (e : Error) : M unit :=
  console_error (message e) ;;
  exit (Some error_notice).

Definition start (fuel : nat) : M unit :=
  when runned
       (console_error "Already running" ;;
        notify "Vscode Updater" "Already running" ;;
        exit None) ;;
  setRun true ;;
  try_catch start_try start_catch ;;
  intervalLoop fuel.

End Program.

(** * Reasoning about awaited computations *)

(** ** Footprints

    A footprint bounds what a computation may do: which effects it may
    add, whether it may assign [Updater.reset] or the notification state
    ([lastMessage], [lastTime]), and whether it may throw or exit. *)

Record Footprint : Type := mkFootprint {
  allows : Event -> bool;
  keep_reset : bool;
  keep_notif : bool;
  may_throw : bool;
  may_exit : bool
}.

(** [w'] is reached from [w] within the footprint. *)
Definition step_rel (F : Footprint) (w w' : World) : Prop :=
  (steps w <= steps w')%nat /\
  (exists new, trace w' = (trace w ++ new)%list /\
               Forall (fun e => allows F e = true) new) /\
  (keep_reset F = true -> reset w' = reset w) /\
  (keep_notif F = true ->
   lastMessage w' = lastMessage w /\ lastTime w' = lastTime w).

Definition outcome_ok (F : Footprint) {A : Type} (r : Outcome A) : Prop :=
  match r with
  | Ok _ => True
  | Thrown _ => may_throw F = true
  | Exited => may_exit F = true
  end.

Definition obeys (F : Footprint) {A : Type} (m : M A) : Prop :=
  forall w, step_rel F w (snd (m w)) /\ outcome_ok F (fst (m w)).

(** The footprint of the body of a [try]. *)
Definition throwing (F : Footprint) : Footprint :=
  mkFootprint (allows F) (keep_reset F) (keep_notif F) true (may_exit F).

Lemma step_rel_refl F w : step_rel F w w.
Proof.
  unfold step_rel. repeat split; auto.
  exists []. rewrite app_nil_r. auto.
Qed.

Lemma step_rel_trans F w1 w2 w3 :
  step_rel F w1 w2 -> step_rel F w2 w3 -> step_rel F w1 w3.
Proof.
  intros (S1 & (n1 & T1 & A1) & R1 & N1) (S2 & (n2 & T2 & A2) & R2 & N2).
  unfold step_rel. split; [lia|]. split.
  - exists (n1 ++ n2)%list. rewrite T2, T1, <- app_assoc. split; auto.
    apply Forall_app; auto.
  - split.
    + intros K. rewrite (R2 K). auto.
    + intros K. destruct (N1 K) as [a b]. destruct (N2 K) as [c d].
      split; congruence.
Qed.

Lemma step_rel_throwing F w w' : step_rel (throwing F) w w' <-> step_rel F w w'.
Proof. unfold step_rel, throwing; simpl; tauto. Qed.

Lemma step_rel_tick F w : step_rel F w (tick w).
Proof.
  unfold step_rel; simpl. repeat split; auto.
  exists []. rewrite app_nil_r. auto.
Qed.

Lemma step_rel_add_event F e w :
  allows F e = true -> step_rel F w (add_event e w).
Proof.
  intros A. unfold step_rel; simpl. repeat split; auto.
  exists [e]. auto.
Qed.

Section Combinators.

Variable F : Footprint.

Lemma obeys_ret {A} (a : A) : obeys F (ret a).
Proof. intros w; simpl. split; [apply step_rel_refl | exact I]. Qed.

Lemma obeys_gets {A} (f : World -> A) : obeys F (gets f).
Proof. intros w; simpl. split; [apply step_rel_refl | exact I]. Qed.

Lemma obeys_throw {A} (e : Error) : may_throw F = true -> obeys F (@throw A e).
Proof. intros T w; simpl. split; [apply step_rel_refl | exact T]. Qed.

Lemma obeys_bind {A B} (m : M A) (f : A -> M B) :
  obeys F m -> (forall a, obeys F (f a)) -> obeys F (bind m f).
Proof.
  intros Hm Hf w. unfold bind. specialize (Hm w).
  destruct (m w) as [[a | e |] w1]; simpl in *; auto.
  specialize (Hf a w1). destruct (f a w1) as [r2 w2]; simpl in *.
  destruct Hm as [Hm _], Hf as [Hf Ho]. split; auto.
  eapply step_rel_trans; eauto.
Qed.

Lemma obeys_try_catch {A} (body : M A) (handler : Error -> M A) :
  obeys (throwing F) body -> (forall e, obeys F (handler e)) ->
  obeys F (try_catch body handler).
Proof.
  intros Hb Hh w. unfold try_catch. specialize (Hb w).
  destruct (body w) as [[a | e |] w1]; simpl in *.
  - destruct Hb as [Hb _]. apply step_rel_throwing in Hb. auto.
  - specialize (Hh e w1). destruct (handler e w1) as [r2 w2]; simpl in *.
    destruct Hb as [Hb _], Hh as [Hh Ho]. apply step_rel_throwing in Hb.
    split; auto. eapply step_rel_trans; eauto.
  - destruct Hb as [Hb Ho]. apply step_rel_throwing in Hb. auto.
Qed.

(** [try { body } catch (e) { throw e; }] is [body]. *)
Lemma try_rethrow {A} (body : M A) w :
  try_catch body (fun e => throw e) w = body w.
Proof.
  unfold try_catch, throw. destruct (body w) as [[a | e |] w1]; reflexivity.
Qed.

Lemma obeys_try_rethrow {A} (body : M A) :
  obeys F body -> obeys F (try_catch body (fun e => throw e)).
Proof. intros Hb w. rewrite try_rethrow. apply Hb. Qed.

Lemma obeys_when (b : bool) (m : M unit) : obeys F m -> obeys F (when b m).
Proof. intros Hm. destruct b; simpl; auto using obeys_ret. Qed.

Lemma obeys_emit (e : Event) : allows F e = true -> obeys F (emit e).
Proof.
  intros A w; simpl. split; [apply step_rel_add_event; auto | exact I].
Qed.

Lemma obeys_set_lastConfig c : obeys F (modify (set_lastConfig c)).
Proof.
  intros w; simpl. split; [|exact I].
  unfold step_rel; simpl. repeat split; auto.
  exists []. rewrite app_nil_r. auto.
Qed.

Lemma obeys_set_lastConfigTime t : obeys F (modify (set_lastConfigTime t)).
Proof.
  intros w; simpl. split; [|exact I].
  unfold step_rel; simpl. repeat split; auto.
  exists []. rewrite app_nil_r. auto.
Qed.

Lemma obeys_set_reset r : keep_reset F = false -> obeys F (modify (set_reset r)).
Proof.
  intros K w; simpl. split; [|exact I].
  unfold step_rel; simpl. repeat split; auto; try congruence.
  exists []. rewrite app_nil_r. auto.
Qed.

Lemma obeys_set_lastMessage m :
  keep_notif F = false -> obeys F (modify (set_lastMessage m)).
Proof.
  intros K w; simpl. split; [|exact I].
  unfold step_rel; simpl. repeat split; auto; try congruence.
  exists []. rewrite app_nil_r. auto.
Qed.

Lemma obeys_set_lastTime t :
  keep_notif F = false -> obeys F (modify (set_lastTime t)).
Proof.
  intros K w; simpl. split; [|exact I].
  unfold step_rel; simpl. repeat split; auto; try congruence.
  exists []. rewrite app_nil_r. auto.
Qed.

Variable env : Env.

Lemma obeys_ask {A} (f : Env -> nat -> A) : obeys F (ask env f).
Proof. intros w; simpl. split; [apply step_rel_tick | exact I]. Qed.

Lemma obeys_answer {A} (f : Env -> nat -> Answer A) :
  may_throw F = true -> obeys F (answer env f).
Proof.
  intros T w. unfold answer.
  destruct (f env (steps w)); simpl; split; auto using step_rel_tick.
Qed.

Lemma obeys_lift {A} (a : Answer A) : may_throw F = true -> obeys F (lift a).
Proof. intros T. destruct a; simpl; auto using obeys_ret, obeys_throw. Qed.

Lemma obeys_Deno_exit {A} :
  may_exit F = true -> allows F EvExit = true -> obeys F (@Deno_exit A).
Proof.
  intros X A0 w; simpl. split; [apply step_rel_add_event; auto | exact X].
Qed.

End Combinators.

Create HintDb obeys.

Ltac obeys_step :=
  match goal with
  | |- obeys _ (bind _ _) => apply obeys_bind; [ | intros ? ]
  | |- obeys _ (try_catch _ (fun e => throw e)) => apply obeys_try_rethrow
  | |- obeys _ (try_catch _ _) => apply obeys_try_catch; [ | intros ? ]
  | |- obeys _ (ret _) => apply obeys_ret
  | |- obeys _ (gets _) => apply obeys_gets
  | |- obeys _ (throw _) => apply obeys_throw; solve [auto]
  | |- obeys _ (when _ _) => apply obeys_when
  | |- obeys _ (emit _) => apply obeys_emit; solve [simpl; auto]
  | |- obeys _ (ask _ _) => apply obeys_ask
  | |- obeys _ (answer _ _) => apply obeys_answer; solve [auto]
  | |- obeys _ (lift _) => apply obeys_lift; solve [auto]
  | |- obeys _ (modify (set_lastConfig _)) => apply obeys_set_lastConfig
  | |- obeys _ (modify (set_lastConfigTime _)) => apply obeys_set_lastConfigTime
  | |- obeys _ (modify (set_reset _)) => apply obeys_set_reset; solve [auto]
  | |- obeys _ (modify (set_lastMessage _)) =>
      apply obeys_set_lastMessage; solve [auto]
  | |- obeys _ (modify (set_lastTime _)) => apply obeys_set_lastTime; solve [auto]
  | |- obeys _ Deno_exit => apply obeys_Deno_exit; solve [auto]
  | |- obeys _ (if ?b then _ else _) => destruct b
  | |- obeys _ (match ?x with _ => _ end) => destruct x
  | |- obeys _ _ => solve [eauto with obeys]
  end.

Ltac obeys_tac := cbv zeta; repeat obeys_step.

(** ** The footprint of each function

    Each lemma holds for every footprint that allows what the function does;
    the hypotheses a lemma keeps say what that is. *)

Section Footprints.

Variable env : Env.
Variable F : Footprint.

Hypothesis A_log : forall l m, allows F (EvLog l m) = true.
Hypothesis A_show : forall t b, allows F (EvShow t b) = true.
Hypothesis A_delay : forall ms, allows F (EvNotifyDelay ms) = true.
Hypothesis A_api : allows F (EvFetch api_uri []) = true.
Hypothesis A_download : forall v, allows F (EvFetch (download_url v) []) = true.
Hypothesis A_write : forall p d, allows F (EvWriteFile p d) = true.
Hypothesis A_decompress : forall a t, allows F (EvDecompress a t) = true.
Hypothesis A_remove : forall p, allows F (EvRemove p) = true.
Hypothesis A_command : forall c a, allows F (EvCommand c a) = true.
Hypothesis A_setRun : forall b, allows F (EvSetRun b) = true.
Hypothesis A_close : allows F EvCloseLog = true.
Hypothesis A_exit : allows F EvExit = true.
Hypothesis W_reset : keep_reset F = false.
Hypothesis W_notif : keep_notif F = false.
Hypothesis T : may_throw F = true.
Hypothesis X : may_exit F = true.

Lemma Date_now_obeys : obeys F (Date_now env).
Proof. unfold Date_now. obeys_tac. Qed.
Hint Resolve Date_now_obeys : obeys.

Lemma console_log_obeys msg : obeys F (console_log msg).
Proof. unfold console_log. obeys_tac. Qed.

Lemma console_error_obeys msg : obeys F (console_error msg).
Proof. unfold console_error. obeys_tac. Qed.

Lemma console_debug_obeys msg : obeys F (console_debug env msg).
Proof. unfold console_debug. obeys_tac. Qed.
Hint Resolve console_log_obeys console_error_obeys console_debug_obeys : obeys.

Lemma notify_obeys title msg : obeys F (notify env title msg).
Proof. unfold notify. obeys_tac. Qed.
Hint Resolve notify_obeys : obeys.

Lemma exists_obeys filename : obeys F (exists_ env filename).
Proof. unfold exists_. obeys_tac. Qed.

Lemma setRun_obeys b : obeys F (setRun env b).
Proof. unfold setRun. obeys_tac. Qed.
Hint Resolve exists_obeys setRun_obeys : obeys.

Lemma exit_obeys msg : obeys F (exit env msg).
Proof. unfold exit. obeys_tac. Qed.
Hint Resolve exit_obeys : obeys.

Lemma readConfig_obeys : obeys F (readConfig env).
Proof. unfold readConfig. obeys_tac. Qed.
Hint Resolve readConfig_obeys : obeys.

Lemma config_dir_obeys : obeys F (config_dir env).
Proof. unfold config_dir. obeys_tac. Qed.

Lemma config_interval_obeys : obeys F (config_interval env).
Proof. unfold config_interval. obeys_tac. Qed.

Lemma config_token_obeys : obeys F (config_token env).
Proof. unfold config_token. obeys_tac. Qed.
Hint Resolve config_dir_obeys config_interval_obeys config_token_obeys : obeys.

Lemma checkConfig_obeys : obeys F (checkConfig env).
Proof. unfold checkConfig. obeys_tac. Qed.
Hint Resolve checkConfig_obeys : obeys.

Lemma fetch_api_obeys : obeys F (fetch env api_uri None).
Proof. unfold fetch. obeys_tac. Qed.

Lemma fetch_download_obeys v : obeys F (fetch env (download_url v) None).
Proof. unfold fetch. obeys_tac. Qed.
Hint Resolve fetch_api_obeys fetch_download_obeys : obeys.

Lemma request_headers_obeys : obeys F (request_headers env).
Proof. unfold request_headers. obeys_tac. Qed.
Hint Resolve request_headers_obeys : obeys.

Lemma getLatestVersion_obeys : obeys F (getLatestVersion env).
Proof. unfold getLatestVersion. obeys_tac. Qed.

Lemma getLocalVersion_obeys : obeys F (getLocalVersion env).
Proof. unfold getLocalVersion. obeys_tac. Qed.
Hint Resolve getLatestVersion_obeys getLocalVersion_obeys : obeys.

Lemma checkUpdate_obeys : obeys F (checkUpdate env).
Proof. unfold checkUpdate. obeys_tac. Qed.

Lemma isProcessRunning_obeys p : obeys F (isProcessRunning env p).
Proof. unfold isProcessRunning. obeys_tac. Qed.

Lemma writeFileSync_obeys p d : obeys F (writeFileSync env p d).
Proof. unfold writeFileSync. obeys_tac. Qed.

Lemma decompress_obeys a t : obeys F (decompress env a t).
Proof. unfold decompress. obeys_tac. Qed.

Lemma removeSync_obeys p : obeys F (removeSync env p).
Proof. unfold removeSync. obeys_tac. Qed.
Hint Resolve checkUpdate_obeys isProcessRunning_obeys writeFileSync_obeys
  decompress_obeys removeSync_obeys : obeys.

Lemma downloadLatest_obeys v : obeys F (downloadLatest env v).
Proof. unfold downloadLatest. obeys_tac. Qed.
Hint Resolve downloadLatest_obeys : obeys.

Lemma updateProcess_obeys : obeys F (updateProcess env).
Proof. unfold updateProcess. obeys_tac. Qed.
Hint Resolve updateProcess_obeys : obeys.

Lemma run_obeys : obeys F (run env).
Proof. unfold run. obeys_tac. Qed.
Hint Resolve run_obeys : obeys.

Lemma intervalLoop_try_obeys : obeys F (intervalLoop_try env).
Proof. unfold intervalLoop_try. obeys_tac. Qed.

Lemma intervalLoop_catch_obeys e : obeys F (intervalLoop_catch env e).
Proof. unfold intervalLoop_catch. obeys_tac. Qed.

End Footprints.

Section LoopFootprints.

Variable env : Env.
Variable F : Footprint.

Hypothesis A_log : forall l m, allows F (EvLog l m) = true.
Hypothesis A_show : forall t b, allows F (EvShow t b) = true.
Hypothesis A_delay : forall ms, allows F (EvNotifyDelay ms) = true.
Hypothesis A_api : allows F (EvFetch api_uri []) = true.
Hypothesis A_download : forall v, allows F (EvFetch (download_url v) []) = true.
Hypothesis A_write : forall p d, allows F (EvWriteFile p d) = true.
Hypothesis A_decompress : forall a t, allows F (EvDecompress a t) = true.
Hypothesis A_remove : forall p, allows F (EvRemove p) = true.
Hypothesis A_command : forall c a, allows F (EvCommand c a) = true.
Hypothesis A_sleep : forall ms, allows F (EvSleep ms) = true.
Hypothesis A_setRun : forall b, allows F (EvSetRun b) = true.
Hypothesis A_close : allows F EvCloseLog = true.
Hypothesis A_exit : allows F EvExit = true.
Hypothesis W_reset : keep_reset F = false.
Hypothesis W_notif : keep_notif F = false.
Hypothesis T : may_throw F = true.
Hypothesis X : may_exit F = true.

(** What the [try] block of a turn does after the wait: the [catch] block
    makes it obey footprints that do not allow throwing. *)
Lemma intervalLoop_guarded_obeys :
  obeys F (try_catch (intervalLoop_try env) (intervalLoop_catch env)).
Proof.
  apply obeys_try_catch.
  - apply intervalLoop_try_obeys; simpl; auto.
  - intros e. apply intervalLoop_catch_obeys; auto.
Qed.

Lemma intervalLoop_turn_obeys d : obeys F (intervalLoop_turn env d).
Proof.
  unfold intervalLoop_turn.
  apply obeys_bind; [apply obeys_emit; auto | intros _].
  apply obeys_bind; [apply console_log_obeys; auto | intros _].
  apply intervalLoop_guarded_obeys.
Qed.

Lemma intervalLoop_turns_obeys fuel d : obeys F (intervalLoop_turns env fuel d).
Proof.
  induction fuel as [|fuel IH]; simpl.
  - apply obeys_ret.
  - apply obeys_bind; [apply intervalLoop_turn_obeys | intros _; exact IH].
Qed.

Lemma intervalLoop_obeys fuel : obeys F (intervalLoop env fuel).
Proof.
  pose proof (intervalLoop_turns_obeys fuel) as Hturns.
  pose proof (config_interval_obeys env F T) as Hci.
  pose proof (notify_obeys env F A_show A_delay W_notif) as Hn.
  pose proof (console_log_obeys F A_log) as Hl.
  unfold intervalLoop. obeys_tac.
Qed.

Lemma start_try_obeys : obeys (throwing F) (start_try env).
Proof.
  pose proof (checkConfig_obeys env (throwing F) A_log eq_refl) as Hcc.
  pose proof (exit_obeys env (throwing F) A_show A_delay A_setRun A_close
                A_exit W_notif eq_refl X) as Hex.
  pose proof (config_dir_obeys env (throwing F) eq_refl) as Hcd.
  pose proof (config_interval_obeys env (throwing F) eq_refl) as Hci.
  pose proof (console_log_obeys (throwing F) A_log) as Hl.
  pose proof (run_obeys env (throwing F) A_log A_show A_delay A_api A_download
                A_write A_decompress A_remove A_command W_reset W_notif
                eq_refl) as Hrun.
  unfold start_try. obeys_tac.
Qed.

Lemma start_catch_obeys e : obeys F (start_catch env e).
Proof.
  pose proof (exit_obeys env F A_show A_delay A_setRun A_close A_exit W_notif
                T X) as Hex.
  pose proof (console_error_obeys F A_log) as Hl.
  unfold start_catch. obeys_tac.
Qed.

Lemma start_obeys fuel : obeys F (start env fuel).
Proof.
  pose proof (exit_obeys env F A_show A_delay A_setRun A_close A_exit W_notif
                T X) as Hex.
  pose proof (console_error_obeys F A_log) as Hl.
  pose proof (notify_obeys env F A_show A_delay W_notif) as Hn.
  pose proof (setRun_obeys env F A_setRun T) as Hsr.
  pose proof (intervalLoop_obeys fuel) as Hloop.
  pose proof start_try_obeys as Htry.
  pose proof start_catch_obeys as Hcatch.
  unfold start. obeys_tac.
Qed.

End LoopFootprints.

(** * Observations on traces *)

(** The effects added between two states. *)
Definition new_events (w w' : World) : list Event :=
  skipn (List.length (trace w)) (trace w').

Lemma new_events_app w w' new :
  trace w' = (trace w ++ new)%list -> new_events w w' = new.
Proof.
  intros E. unfold new_events. rewrite E.
  rewrite skipn_app, skipn_all, Nat.sub_diag. reflexivity.
Qed.

(** The waits of the scheduling loop, in order. *)
Fixpoint sleeps (l : list Event) : list Z :=
  match l with
  | [] => []
  | EvSleep ms :: t => ms :: sleeps t
  | _ :: t => sleeps t
  end.

(** The network requests, in order. *)
Fixpoint requests (l : list Event) : list (string * Headers) :=
  match l with
  | [] => []
  | EvFetch url h :: t => (url, h) :: requests t
  | _ :: t => requests t
  end.

(** The steps that change the installation: the download of an archive (any
    request that is not the query of the release API), the write of the
    archive, its extraction, its removal. *)
Definition is_update (e : Event) : bool :=
  match e with
  | EvFetch url _ => negb (url =? api_uri)%string
  | EvWriteFile _ _ | EvDecompress _ _ | EvRemove _ => true
  | _ => false
  end.

Definition updates (l : list Event) : list Event := filter is_update l.

Lemma sleeps_app l1 l2 : sleeps (l1 ++ l2) = (sleeps l1 ++ sleeps l2)%list.
Proof.
  induction l1 as [|e l1 IH]; simpl; auto.
  destruct e; simpl; auto. rewrite IH. reflexivity.
Qed.

Lemma requests_app l1 l2 :
  requests (l1 ++ l2) = (requests l1 ++ requests l2)%list.
Proof.
  induction l1 as [|e l1 IH]; simpl; auto.
  destruct e; simpl; auto. rewrite IH. reflexivity.
Qed.

Lemma updates_app l1 l2 : updates (l1 ++ l2) = (updates l1 ++ updates l2)%list.
Proof. apply filter_app. Qed.

(** * Sample environments *)

Definition release_response (tag zip : string) : Response :=
  mkResponse true 200 "OK" (HSeconds 1730000000)
    (Gives (mkApiData (Some tag) (Some zip) None))
    (Fails (mkError "body already read" "")).

Definition throttled_response (reset_seconds : Z) : Response :=
  mkResponse false 403 "rate limit exceeded" (HSeconds reset_seconds)
    (Gives (mkApiData None None (Some "API rate limit exceeded")))
    (Fails (mkError "body already read" "")).

Definition archive_response (body : list Byte.byte) : Response :=
  mkResponse true 200 "OK" HAbsent
    (Fails (mkError "Unexpected token P in JSON" "")) (Gives body).

(** A healthy machine: the configuration and the manifest are readable, the
    run marker and the temporary directory are writable; the clock, the
    network and the process list are given. *)
Definition sample_env (clock : nat -> Z) (cfg : ConfigData) (installed : string)
    (net : nat -> string -> Answer Response) (tasks : string) : Env :=
  mkEnv clock
        (fun _ => Gives cfg)
        (fun _ => Gives [mkDirEntry true "vscu.json"])
        (fun _ => VscuParsed (JStr (dir cfg)) (JNum (Num (interval cfg))))
        (fun _ => Found)
        (fun _ => Gives (Some installed))
        net
        (fun _ => Gives tt) (fun _ => Gives tt) (fun _ => Gives tt)
        (fun _ => Gives tasks)
        (fun _ => Gives tt)
        (fun path => path) "C:\Temp" false
        (fun msg => "Error: " ++ msg).

Definition sample_config : ConfigData := mkConfig "C:\VSCode" 1800000 None.

Definition sample_config_token : ConfigData :=
  mkConfig "C:\VSCode" 1800000 (Some "ghp_0123456789").

Definition sample_zipball : string :=
  "https://api.github.com/repos/microsoft/vscode/zipball/1.95.0".

(** The API reports release [tag]; any other address serves an archive. *)
Definition net_release (tag : string) (n : nat) (url : string)
  : Answer Response :=
  if (url =? api_uri)%string then Gives (release_response tag sample_zipball)
  else Gives (archive_response [Byte.x50; Byte.x4b]).

(** The API answers that the rate limit is exceeded until [reset_seconds]. *)
Definition net_throttled (reset_seconds : Z) (n : nat) (url : string)
  : Answer Response :=
  if (url =? api_uri)%string then Gives (throttled_response reset_seconds)
  else Gives (archive_response [Byte.x50; Byte.x4b]).

Definition no_tasks : string :=
  "INFO: No tasks are running which match the specified criteria.".

Definition code_running : string :=
  "Code.exe                     12345 Console                    1    101,232 K".

(** * The notification gate (utils.ts) *)

(** What one call of [notify] does: nothing when the message is the last
    one, otherwise a wait and the notification. *)
Lemma notify_spec env title msg w :
  exists w' shown,
    notify env title msg w = (Ok tt, w') /\
    trace w' = (trace w ++ shown)%list /\
    lastMessage w' = msg /\
    reset w' = reset w /\
    ((lastMessage w = msg /\ shown = [] /\ w' = w) \/
     (lastMessage w <> msg /\
      exists ms, shown = [EvNotifyDelay ms; EvShow title msg])).
Proof.
  unfold notify, bind, emit, modify, gets, Date_now, ask, ret.
  destruct (String.eqb_spec (lastMessage w) msg) as [E | N].
  - exists w, []. rewrite app_nil_r. auto 10.
  - cbn -[Z.add Z.sub Z.eqb].
    destruct (lastTime w =? 0); cbn -[Z.add Z.sub Z.eqb];
      eexists; eexists; (split; [reflexivity|]); cbn -[Z.add Z.sub Z.eqb];
      rewrite <- ?app_assoc; cbn -[Z.add Z.sub Z.eqb];
      (split; [reflexivity|]); (split; [reflexivity|]);
      (split; [reflexivity|]); right; split; eauto.
Qed.

Lemma notify_lastMessage env title msg w :
  lastMessage (snd (notify env title msg w)) = msg.
Proof.
  destruct (notify_spec env title msg w) as (w' & shown & R & _ & L & _).
  rewrite R. exact L.
Qed.

Lemma notify_repeated env title msg w :
  lastMessage w = msg -> notify env title msg w = (Ok tt, w).
Proof.
  intros E. unfold notify, bind, gets, ret.
  rewrite E, String.eqb_refl. reflexivity.
Qed.

(** C10. Two successive calls of [notify] with equal messages: the second
    returns without showing anything and leaves the whole state, so
    [lastMessage] and [lastTime] too, as the first call left it, whatever
    the two titles are. *)
Theorem notify_suppresses_repeated_message :
  forall env title1 title2 msg w,
    let w1 := snd (notify env title1 msg w) in
    notify env title2 msg w1 = (Ok tt, w1).
Proof.
  intros env title1 title2 msg w w1.
  apply notify_repeated. apply notify_lastMessage.
Qed.

(** * The rate-limit state (updater.ts, getLatestVersion) *)

Lemma getLatestVersion_limited env w :
  num_gt (reset w) 100 = true -> getLatestVersion env w = (Ok None, w).
Proof.
  intros L. unfold getLatestVersion, bind, gets. rewrite L. reflexivity.
Qed.

(** C2. Once [reset] holds a remaining time above 100 ms, [getLatestVersion]
    returns null without a request and without touching the state, whatever
    the clock of the environment reads: the stored value is never compared
    with the time and never assigned again, so the limit does not lapse. *)
Theorem rate_limit_never_lapses :
  forall env w,
    num_gt (reset w) 100 = true ->
    getLatestVersion env w = (Ok None, w) /\
    requests (new_events w (snd (getLatestVersion env w))) = [].
Proof.
  intros env w L. rewrite (getLatestVersion_limited env w L). split; auto.
  unfold new_events; simpl. rewrite skipn_all. reflexivity.
Qed.

(** A clock that reads 1000 ms during the first hundred interactions and a
    day later after them. *)
Definition late_clock (n : nat) : Z :=
  if (n <? 100)%nat then 1000 else 86400000.

(** The API reports a limit that ends at second 5 (5000 ms). *)
Definition env_limited : Env :=
  sample_env late_clock sample_config "1.94.0" (net_throttled 5) no_tasks.

(** The state one query leaves, taken a thousand interactions later, when the
    clock is far beyond the end of the limit. *)
Definition world_long_after : World :=
  let w1 := snd (getLatestVersion env_limited
                   (mkWorld 0 [] (Num 100) "" 0 (Some sample_config) 1000)) in
  mkWorld 1000 (trace w1) (reset w1) (lastMessage w1) (lastTime w1)
          (lastConfig w1) (lastConfigTime w1).

Lemma rate_limit_never_lapses_witness :
  num_gt (reset world_long_after) 100 = true /\
  5000 < env_now env_limited (steps world_long_after) /\
  getLatestVersion env_limited world_long_after = (Ok None, world_long_after)
  /\ requests (new_events world_long_after
                 (snd (getLatestVersion env_limited world_long_after))) = [].
Proof.
  split; [reflexivity|]. split; [vm_compute; reflexivity|].
  apply (rate_limit_never_lapses env_limited world_long_after).
  reflexivity.
Defined.

(** * What a footprint gives *)

Lemma obeys_events {A} F (m : M A) w :
  obeys F m ->
  trace (snd (m w)) = (trace w ++ new_events w (snd (m w)))%list /\
  Forall (fun e => allows F e = true) (new_events w (snd (m w))).
Proof.
  intros H. destruct (H w) as [(_ & (new & E & P) & _) _].
  rewrite (new_events_app _ _ _ E). auto.
Qed.

Lemma obeys_returns {A} F (m : M A) w :
  obeys F m -> may_throw F = false -> may_exit F = false ->
  exists a, fst (m w) = Ok a.
Proof.
  intros H NT NX. destruct (H w) as [_ O].
  destruct (fst (m w)) as [a | e |]; simpl in O.
  - exists a; reflexivity.
  - congruence.
  - congruence.
Qed.

Lemma allowed_sleeps F l :
  (forall ms, allows F (EvSleep ms) = false) ->
  Forall (fun e => allows F e = true) l -> sleeps l = [].
Proof.
  intros N H. induction H as [|e l He _ IH]; simpl; auto.
  destruct e; auto. rewrite N in He. discriminate.
Qed.

Lemma allowed_updates F l :
  (forall e, allows F e = true -> is_update e = false) ->
  Forall (fun e => allows F e = true) l -> updates l = [].
Proof.
  intros N H. induction H as [|e l He _ IH]; simpl; auto.
  rewrite (N e He). exact IH.
Qed.

Lemma allowed_requests F l :
  (forall u h, allows F (EvFetch u h) = false) ->
  Forall (fun e => allows F e = true) l -> requests l = [].
Proof.
  intros N H. induction H as [|e l He _ IH]; simpl; auto.
  destruct e; auto. rewrite N in He. discriminate.
Qed.

(** ** Footprints used below *)

(** Anything but a wait of the loop; no exception and no exit get out. *)
Definition fp_guarded_cycle : Footprint :=
  mkFootprint (fun e => match e with EvSleep _ => false | _ => true end)
              false false false false.

(** No effect at all, and the updater and notification states are kept. *)
Definition fp_silent : Footprint :=
  mkFootprint (fun _ => false) true true true false.

(** Log lines only; both states are kept. *)
Definition fp_logs : Footprint :=
  mkFootprint (fun e => match e with EvLog _ _ => true | _ => false end)
              true true true false.

(** Requests carry no header. *)
Definition fp_no_header : Footprint :=
  mkFootprint
    (fun e => match e with
              | EvFetch _ [] => true
              | EvFetch _ (_ :: _) => false
              | _ => true
              end)
    false false true true.

(** * The Authorization header (updater.ts, getLatestVersion) *)

Definition env_with_token : Env :=
  sample_env (fun _ => 1000) sample_config_token "1.94.0"
             (net_release "1.95.0") no_tasks.

Lemma no_header_requests l :
  Forall (fun e => allows fp_no_header e = true) l ->
  Forall (fun rq => snd rq = []) (requests l).
Proof.
  intros P. induction P as [|e l He _ IH]; simpl; auto.
  destruct e; auto. constructor; auto.
  simpl in He. destruct headers; [reflexivity | discriminate].
Qed.

(** C8. No request of the program carries a header, whatever the
    configuration holds: [getLatestVersion] builds the Authorization header
    from the token and then calls [fetch] without it. This holds for every
    call of [getLatestVersion] and for the whole run of [start]. With the
    token ghp_0123456789 configured, the one request of a query is a bare
    GET of the release API. *)
Theorem token_not_sent :
  (forall env w,
     Forall (fun rq => snd rq = [])
            (requests (new_events w (snd (getLatestVersion env w))))) /\
  (forall env fuel w,
     Forall (fun rq => snd rq = [])
            (requests (new_events w (snd (start env fuel w))))) /\
  fst (config_token env_with_token initial_world) = Ok (Some "ghp_0123456789")
  /\ requests (trace (snd (getLatestVersion env_with_token initial_world)))
     = [(api_uri, [])].
Proof.
  split; [|split; [|split; reflexivity]].
  - intros env w. apply no_header_requests.
    apply (obeys_events fp_no_header).
    apply getLatestVersion_obeys; reflexivity.
  - intros env fuel w. apply no_header_requests.
    apply (obeys_events fp_no_header).
    apply start_obeys; reflexivity.
Qed.

(** * The scheduling loop (vscode-updater.ts) *)

Lemma guarded_cycle_obeys env :
  obeys fp_guarded_cycle
        (console_log "Checking for updates in the interval loop..." ;;
         try_catch (intervalLoop_try env) (intervalLoop_catch env)).
Proof.
  apply obeys_bind.
  - apply console_log_obeys. reflexivity.
  - intros _. apply intervalLoop_guarded_obeys; reflexivity.
Qed.

(** One turn waits [d], runs the cycle behind its [try], and returns. *)
Lemma intervalLoop_turn_returns env d w :
  fst (intervalLoop_turn env d w) = Ok tt /\
  sleeps (new_events w (snd (intervalLoop_turn env d w))) = [d].
Proof.
  pose proof (guarded_cycle_obeys env) as H.
  set (rest := console_log _ ;; try_catch _ _) in H.
  assert (Q : intervalLoop_turn env d w = rest (add_event (EvSleep d) w))
    by reflexivity.
  rewrite Q.
  destruct (obeys_returns _ _ (add_event (EvSleep d) w) H eq_refl eq_refl)
    as [[] R].
  destruct (obeys_events _ _ (add_event (EvSleep d) w) H) as [E P].
  split; auto.
  apply (allowed_sleeps fp_guarded_cycle) in P; [|reflexivity].
  simpl in E. rewrite <- app_assoc in E. rewrite (new_events_app _ _ _ E).
  simpl. exact (f_equal (cons d) P).
Qed.

Lemma new_events_trans w1 w2 w3 :
  trace w2 = (trace w1 ++ new_events w1 w2)%list ->
  trace w3 = (trace w2 ++ new_events w2 w3)%list ->
  new_events w1 w3 = (new_events w1 w2 ++ new_events w2 w3)%list.
Proof.
  intros E1 E2. apply new_events_app.
  rewrite E2 at 1. rewrite E1 at 1. rewrite app_assoc. reflexivity.
Qed.

Definition fp_any : Footprint :=
  mkFootprint (fun _ => true) false false true true.

Lemma intervalLoop_turns_returns env fuel d w :
  fst (intervalLoop_turns env fuel d w) = Ok tt /\
  sleeps (new_events w (snd (intervalLoop_turns env fuel d w)))
  = repeat d fuel.
Proof.
  revert w. induction fuel as [|fuel IH]; intros w; simpl.
  - split; auto. unfold new_events. rewrite skipn_all. reflexivity.
  - unfold bind.
    destruct (intervalLoop_turn_returns env d w) as [R S].
    assert (O1 : obeys fp_any (intervalLoop_turn env d)).
    { apply intervalLoop_turn_obeys; reflexivity. }
    assert (O2 : obeys fp_any (intervalLoop_turns env fuel d)).
    { apply intervalLoop_turns_obeys; reflexivity. }
    destruct (obeys_events _ _ w O1) as [E1 _].
    destruct (intervalLoop_turn env d w) as [r w1]. simpl in *. subst r.
    destruct (IH w1) as [R' S'].
    destruct (obeys_events _ _ w1 O2) as [E2 _].
    destruct (intervalLoop_turns env fuel d w1) as [r2 w2]. simpl in *.
    subst r2. split; auto.
    rewrite (new_events_trans _ _ _ E1 E2), sleeps_app, S, S'. reflexivity.
Qed.

(** ** Following a computation call by call *)

(** [sat m w Q]: the outcome and the final state of [m] from [w] satisfy
    [Q]. *)
Definition sat {A : Type} (m : M A) (w : World)
    (Q : Outcome A -> World -> Prop) : Prop :=
  Q (fst (m w)) (snd (m w)).

Lemma sat_bind {A B} (m : M A) (f : A -> M B) w Q :
  sat m w (fun r w1 =>
             match r with
             | Ok a => sat (f a) w1 Q
             | Thrown e => Q (Thrown e) w1
             | Exited => Q Exited w1
             end) ->
  sat (bind m f) w Q.
Proof.
  unfold sat, bind. destruct (m w) as [[a | e |] w1]; simpl; auto.
Qed.

Lemma sat_try_rethrow {A} (body : M A) w Q :
  sat body w Q -> sat (try_catch body (fun e => throw e)) w Q.
Proof. unfold sat. rewrite try_rethrow. auto. Qed.

Lemma sat_try_catch {A} (body : M A) (handler : Error -> M A) w Q :
  sat body w (fun r w1 =>
                match r with
                | Thrown e => sat (handler e) w1 Q
                | _ => Q r w1
                end) ->
  sat (try_catch body handler) w Q.
Proof.
  unfold sat, try_catch. destruct (body w) as [[a | e |] w1]; simpl; auto.
Qed.

Lemma sat_ret {A} (a : A) w (Q : Outcome A -> World -> Prop) :
  Q (Ok a) w -> sat (ret a) w Q.
Proof. auto. Qed.

Lemma sat_gets {A} (f : World -> A) w (Q : Outcome A -> World -> Prop) :
  Q (Ok (f w)) w -> sat (gets f) w Q.
Proof. auto. Qed.

Lemma sat_modify (f : World -> World) w (Q : Outcome unit -> World -> Prop) :
  Q (Ok tt) (f w) -> sat (modify f) w Q.
Proof. auto. Qed.

Lemma sat_emit e w (Q : Outcome unit -> World -> Prop) :
  Q (Ok tt) (add_event e w) -> sat (emit e) w Q.
Proof. auto. Qed.

Lemma sat_mono {A} (m : M A) w (Q Q' : Outcome A -> World -> Prop) :
  sat m w Q -> (forall r w', Q r w' -> Q' r w') -> sat m w Q'.
Proof. unfold sat; auto. Qed.

Lemma sat_eq {A} (m : M A) w r w' (Q : Outcome A -> World -> Prop) :
  m w = (r, w') -> Q r w' -> sat m w Q.
Proof. unfold sat. intros ->. auto. Qed.

(** A call is followed through its footprint. *)
Lemma sat_obeys {A} F (m : M A) w (Q : Outcome A -> World -> Prop) :
  obeys F m ->
  (forall r w', step_rel F w w' -> outcome_ok F r -> Q r w') ->
  sat m w Q.
Proof. intros H K. destruct (H w). apply K; auto. Qed.

(** What a step within a footprint keeps of the observations. *)
Lemma step_rel_sleeps F w w' :
  (forall ms, allows F (EvSleep ms) = false) ->
  step_rel F w w' -> sleeps (trace w') = sleeps (trace w).
Proof.
  intros N (_ & (new & E & P) & _). rewrite E, sleeps_app.
  rewrite (allowed_sleeps F new N P). apply app_nil_r.
Qed.

Lemma step_rel_updates F w w' :
  (forall e, allows F e = true -> is_update e = false) ->
  step_rel F w w' -> updates (trace w') = updates (trace w).
Proof.
  intros N (_ & (new & E & P) & _). rewrite E, updates_app.
  rewrite (allowed_updates F new N P). apply app_nil_r.
Qed.

Lemma step_rel_requests F w w' :
  (forall u h, allows F (EvFetch u h) = false) ->
  step_rel F w w' -> requests (trace w') = requests (trace w).
Proof.
  intros N (_ & (new & E & P) & _). rewrite E, requests_app.
  rewrite (allowed_requests F new N P). apply app_nil_r.
Qed.

Lemma step_rel_trace F w w' :
  (forall e, allows F e = false) -> step_rel F w w' -> trace w' = trace w.
Proof.
  intros N (_ & (new & E & P) & _). destruct P as [|e l He _].
  - rewrite E. apply app_nil_r.
  - rewrite N in He. discriminate.
Qed.

Lemma step_rel_reset F w w' :
  keep_reset F = true -> step_rel F w w' -> reset w' = reset w.
Proof. intros K (_ & _ & R & _). auto. Qed.

Lemma step_rel_lastMessage F w w' :
  keep_notif F = true -> step_rel F w w' -> lastMessage w' = lastMessage w.
Proof. intros K (_ & _ & _ & N). apply N, K. Qed.

Lemma step_rel_steps F w w' : step_rel F w w' -> (steps w <= steps w')%nat.
Proof. intros (S & _). exact S. Qed.

(** From an observation of the whole trace to one of the new events. *)
Lemma sleeps_new_events {A} (m : M A) F w l :
  obeys F m ->
  sleeps (trace (snd (m w))) = (sleeps (trace w) ++ l)%list ->
  sleeps (new_events w (snd (m w))) = l.
Proof.
  intros H E. destruct (obeys_events F m w H) as [T _].
  rewrite T, sleeps_app in E. apply app_inv_head in E. exact E.
Qed.

Lemma updates_new_events {A} (m : M A) F w l :
  obeys F m ->
  updates (trace (snd (m w))) = (updates (trace w) ++ l)%list ->
  updates (new_events w (snd (m w))) = l.
Proof.
  intros H E. destruct (obeys_events F m w H) as [T _].
  rewrite T, updates_app in E. apply app_inv_head in E. exact E.
Qed.

Lemma requests_new_events {A} (m : M A) F w l :
  obeys F m ->
  requests (trace (snd (m w))) = (requests (trace w) ++ l)%list ->
  requests (new_events w (snd (m w))) = l.
Proof.
  intros H E. destruct (obeys_events F m w H) as [T _].
  rewrite T, requests_app in E. apply app_inv_head in E. exact E.
Qed.

(** ** The delay of the loop *)

Lemma loop_interval_floor c r : 100 <= loop_interval c r.
Proof.
  unfold loop_interval.
  destruct r as [z|]; [destruct (z >? 100)|];
    match goal with |- context [?x <? 100] => destruct (Z.ltb_spec x 100) end;
    lia.
Qed.

(** Anything but a wait of the loop; nothing exits. *)
Definition fp_no_sleep : Footprint :=
  mkFootprint (fun e => match e with EvSleep _ => false | _ => true end)
              false false true false.

Lemma intervalLoop_waits env fuel w c w1 :
  config_interval env w = (Ok c, w1) ->
  let d := loop_interval c (reset w) in
  let r := intervalLoop env fuel w in
  (fst r = Ok tt /\ sleeps (trace (snd r)) = (sleeps (trace w) ++ repeat d fuel)%list)
  \/ ((exists e, fst r = Thrown e) /\ sleeps (trace (snd r)) = sleeps (trace w)).
Proof.
  intros C d r.
  assert (S1 : step_rel fp_silent w w1).
  { pose proof (config_interval_obeys env fp_silent eq_refl w) as [S _].
    rewrite C in S. exact S. }
  assert (T1 : trace w1 = trace w)
    by (apply (step_rel_trace fp_silent); auto).
  assert (R1 : reset w1 = reset w)
    by (apply (step_rel_reset fp_silent); auto).
  enough (H : sat (intervalLoop env fuel) w
                (fun r w' =>
                   (r = Ok tt /\
                    sleeps (trace w')
                    = (sleeps (trace w) ++ repeat d fuel)%list)
                   \/ ((exists e, r = Thrown e) /\
                       sleeps (trace w') = sleeps (trace w))))
    by exact H.
  unfold intervalLoop.
  apply sat_bind. eapply sat_eq; [exact C|].
  apply sat_bind. apply sat_gets. rewrite R1. fold d. cbv zeta.
  apply sat_bind.
  apply (sat_obeys fp_silent); [apply config_interval_obeys; reflexivity|].
  intros [c2 | e |] w2 S2 O2; simpl in O2; try discriminate.
  2: { right. split; [eauto|].
       rewrite (step_rel_trace fp_silent _ _ (fun _ => eq_refl) S2), T1.
       reflexivity. }
  assert (T2 : trace w2 = trace w)
    by (rewrite (step_rel_trace fp_silent _ _ (fun _ => eq_refl) S2); auto).
  apply sat_bind.
  apply (sat_obeys fp_no_sleep).
  { apply obeys_when.
    apply obeys_bind; [apply config_interval_obeys; reflexivity | intros ?].
    apply obeys_bind; [apply console_log_obeys; reflexivity | intros ?].
    apply notify_obeys; reflexivity. }
  intros [[] | e |] w3 S3 O3; simpl in O3; try discriminate.
  2: { right. split; [eauto|].
       rewrite (step_rel_sleeps fp_no_sleep _ _ (fun _ => eq_refl) S3), T2.
       reflexivity. }
  assert (T3 : sleeps (trace w3) = sleeps (trace w))
    by (rewrite (step_rel_sleeps fp_no_sleep _ _ (fun _ => eq_refl) S3), T2;
        reflexivity).
  unfold sat. left.
  destruct (intervalLoop_turns_returns env fuel d w3) as [R S]. split; auto.
  assert (O : obeys fp_any (intervalLoop_turns env fuel d))
    by (apply intervalLoop_turns_obeys; reflexivity).
  destruct (obeys_events _ _ w3 O) as [E _].
  rewrite E, sleeps_app, S, T3. reflexivity.
Qed.

Lemma loop_interval_unlimited c r :
  num_gt r 100 = false -> loop_interval c r = Z.max 100 c.
Proof.
  unfold loop_interval, num_gt. intros L.
  destruct r as [z|]; [rewrite L|];
    destruct (Z.ltb_spec c 100); lia.
Qed.

Lemma loop_interval_limited c z :
  100 < z -> loop_interval c (Num z) = z.
Proof.
  unfold loop_interval. intros L.
  destruct (Z.gtb_spec z 100); [|lia].
  destruct (Z.ltb_spec z 100); lia.
Qed.

(** C3 (as the code has it). The delay is computed once, when
    [intervalLoop] is entered, from the configured interval read then and
    the value [reset] has then: the remaining time when [reset > 100], the
    configured interval otherwise, and at least 100 ms. Every turn of the
    loop waits that same delay, whatever the cycles do to [reset] in
    between. The loop makes all its turns, unless reading the configuration
    again fails before the first wait. *)
Theorem loop_delay_fixed_at_entry :
  forall env fuel w c w1,
    config_interval env w = (Ok c, w1) ->
    let d := loop_interval c (reset w) in
    let r := intervalLoop env fuel w in
    100 <= d /\
    (num_gt (reset w) 100 = false -> d = Z.max 100 c) /\
    (forall z, reset w = Num z -> 100 < z -> d = z) /\
    ((fst r = Ok tt /\ sleeps (new_events w (snd r)) = repeat d fuel) \/
     ((exists e, fst r = Thrown e) /\ sleeps (new_events w (snd r)) = [])).
Proof.
  intros env fuel w c w1 C d r.
  split; [apply loop_interval_floor|].
  split; [apply loop_interval_unlimited|].
  split; [intros z E L; unfold d; rewrite E; apply loop_interval_limited; auto|].
  assert (O : obeys fp_any (intervalLoop env fuel))
    by (apply intervalLoop_obeys; reflexivity).
  destruct (intervalLoop_waits env fuel w c w1 C) as [[R S] | [R S]].
  - left. split; auto. eapply sleeps_new_events; eauto.
  - right. split; auto. eapply sleeps_new_events; eauto.
    rewrite app_nil_r. exact S.
Qed.

(** The release API is limited until second 5001; the clock reads 1000 ms. *)
Definition env_limit_met_later : Env :=
  sample_env (fun _ => 1000) sample_config "1.94.0" (net_throttled 5001)
             no_tasks.

Lemma loop_delay_fixed_at_entry_witness :
  config_interval env_limit_met_later initial_world
  = (Ok 1800000, snd (config_interval env_limit_met_later initial_world)) /\
  sleeps (new_events initial_world
            (snd (intervalLoop env_limit_met_later 3 initial_world)))
  = [1800000; 1800000; 1800000].
Proof.
  assert (H : config_interval env_limit_met_later initial_world
              = (Ok 1800000,
                 snd (config_interval env_limit_met_later initial_world)))
    by (vm_compute; reflexivity).
  split; [exact H|].
  destruct (loop_delay_fixed_at_entry env_limit_met_later 3 initial_world
              1800000 _ H) as (_ & _ & _ & [[_ S] | [[e R] _]]).
  - exact S.
  - vm_compute in R. discriminate R.
Defined.

(** C3 fails as stated. The loop is entered with [reset = 100] and a
    configured interval of 1800000 ms. The first turn meets the rate limit
    and leaves [reset = 5000000]. The second turn still waits 1800000 ms,
    not the 5000000 ms that the state at that moment gives. *)
Lemma delay_not_recomputed :
  let w1 := snd (intervalLoop env_limit_met_later 1 initial_world) in
  let w2 := snd (intervalLoop env_limit_met_later 2 initial_world) in
  reset initial_world = Num 100 /\
  reset w1 = Num 5000000 /\
  w2 = snd (intervalLoop_turn env_limit_met_later 1800000 w1) /\
  sleeps (new_events w1 w2) = [1800000] /\
  loop_interval 1800000 (reset w1) = 5000000 /\
  sleeps (new_events w1 w2) <> [loop_interval 1800000 (reset w1)].
Proof.
  vm_compute. repeat split; try reflexivity. discriminate.
Qed.

(** ** Errors of a cycle *)

Definition turn_error_log (e : Error) : list Event :=
  [EvLog LInfo
     "An error occurred while checking for updates in the interval loop";
   EvLog LError (message e);
   EvLog LError (stack e)].

(** The [catch] block of a turn logs the error and asks for the error
    notice, which is shown unless it repeats the last message. *)
Lemma intervalLoop_catch_spec env e w :
  exists w' shown,
    intervalLoop_catch env e w = (Ok tt, w') /\
    trace w' = (trace w ++ turn_error_log e ++ shown)%list /\
    ((lastMessage w = error_notice /\ shown = []) \/
     (lastMessage w <> error_notice /\
      exists ms, shown = [EvNotifyDelay ms;
                          EvShow "Vscode Updater Error" error_notice])).
Proof.
  set (w3 := add_event (EvLog LError (stack e))
               (add_event (EvLog LError (message e))
                  (add_event
                     (EvLog LInfo
                        "An error occurred while checking for updates in the interval loop")
                     w))).
  assert (Q : intervalLoop_catch env e w
              = notify env "Vscode Updater Error" error_notice w3)
    by reflexivity.
  destruct (notify_spec env "Vscode Updater Error" error_notice w3)
    as (w' & shown & R & Tr & _ & _ & Cases).
  exists w', shown. rewrite Q, R. split; auto. split.
  - rewrite Tr. unfold w3, turn_error_log; simpl.
    rewrite <- !app_assoc. reflexivity.
  - change (lastMessage w3) with (lastMessage w) in Cases.
    destruct Cases as [(A & B & _) | (A & B)]; [left | right]; auto.
Qed.



(** Whether [exit] shows its message: only a non-empty message that is
    not the last one shown. *)
Definition exit_notice (msg : option string) (w : World)
    (shown : list Event) : Prop :=
  ((opt_truthy msg = false \/ Some (lastMessage w) = msg) /\ shown = [])
  \/
  (opt_truthy msg = true /\ Some (lastMessage w) <> msg /\
   exists ms, shown = [EvNotifyDelay ms;
                       EvShow "Vscode Updater Error" (interpolate msg)]).

Lemma exit_spec env msg w :
  exists shown,
    exit_notice msg w shown /\
    ((fst (exit env msg w) = Exited /\
      trace (snd (exit env msg w))
      = (trace w ++ shown ++ [EvSetRun false; EvCloseLog; EvExit])%list)
     \/
     ((exists e k, fst (exit env msg w) = Thrown e /\
                   env_setRun env k = Fails e) /\
      trace (snd (exit env msg w))
      = (trace w ++ shown ++ [EvSetRun false])%list)).
Proof.
  assert (N : exists w1 shown,
             when (opt_truthy msg)
                  (notify env "Vscode Updater Error" (interpolate msg)) w
             = (Ok tt, w1) /\
             trace w1 = (trace w ++ shown)%list /\
             exit_notice msg w shown).
  { unfold exit_notice. destruct (opt_truthy msg) eqn:T; simpl.
    - destruct (notify_spec env "Vscode Updater Error" (interpolate msg) w)
        as (w1 & shown & E & Tr & _ & _ & C).
      exists w1, shown. split; [exact E|]. split; [exact Tr|].
      destruct msg as [m|]; [|discriminate]. simpl in C.
      destruct C as [(L & S & _) | (L & ms & S)].
      + left. split; [|exact S]. right. congruence.
      + right. split; [reflexivity|]. split; [congruence | eauto].
    - exists w, []. rewrite app_nil_r.
      split; [reflexivity|]. split; [reflexivity|]. left. auto. }
  destruct N as (w1 & shown & E & Tr & C).
  exists shown. split; [exact C|].
  unfold exit, bind. rewrite E.
  unfold setRun, bind, emit, modify, answer, Deno_exit. cbn [fst snd].
  destruct (env_setRun env (steps (add_event (EvSetRun false) w1))) eqn:W;
    cbn [fst snd].
  - left. split; [reflexivity|].
    cbn. rewrite Tr, <- !app_assoc. reflexivity.
  - right. split; [eauto|].
    cbn. rewrite Tr, <- !app_assoc. reflexivity.
Qed.












(** * Reading the configuration (config.ts) *)

(** A read of the configuration returns, or throws what reading or parsing
    ./vscu.json threw in the meantime; it never exits. *)
Definition config_outcome {A : Type} (env : Env) (w w' : World)
    (r : Outcome A) : Prop :=
  match r with
  | Ok _ => True
  | Thrown e =>
      exists k, (steps w <= k < steps w')%nat /\ env_vscu env k = Fails e
  | Exited => False
  end.

Lemma config_fails_widen env lo hi lo' hi' e :
  (exists k, (lo <= k < hi)%nat /\ env_vscu env k = Fails e) ->
  (lo' <= lo)%nat -> (hi <= hi')%nat ->
  exists k, (lo' <= k < hi')%nat /\ env_vscu env k = Fails e.
Proof. intros (k & K & E) L1 L2. exists k. split; [lia | exact E]. Qed.

Lemma readConfig_spec env w :
  sat (readConfig env) w
      (fun r w' => step_rel fp_silent w w' /\ config_outcome env w w' r).
Proof.
  split.
  - apply readConfig_obeys. reflexivity.
  - unfold readConfig. rewrite try_rethrow.
    unfold bind, gets, Date_now, ask, answer, modify, ret.
    destruct (lastConfig w) as [c|]; cbn -[Z.sub Z.ltb].
    + destruct (env_now env (steps w) - lastConfigTime w <? 1000);
        cbn -[Z.sub Z.ltb]; auto.
      destruct (env_vscu env (S (steps w))) eqn:E; cbn; auto.
      exists (S (steps w)). split; [lia | exact E].
    + destruct (env_vscu env (steps w)) eqn:E; cbn; auto.
      exists (steps w). split; [lia | exact E].
Qed.

Lemma config_token_spec env w :
  sat (config_token env) w
      (fun r w' => step_rel fp_silent w w' /\ config_outcome env w w' r).
Proof.
  destruct (readConfig_spec env w) as [S C]. unfold sat, config_token, bind.
  destruct (readConfig env w) as [[c | e |] w1]; simpl in *; auto.
Qed.


(** Log lines only, and nothing is thrown. *)
Definition fp_log_only : Footprint :=
  mkFootprint (fun e => match e with EvLog _ _ => true | _ => false end)
              true true false false.

Lemma request_headers_spec env w :
  sat (request_headers env) w
      (fun r w' => step_rel fp_logs w w' /\ config_outcome env w w' r).
Proof.
  split.
  - apply request_headers_obeys; reflexivity.
  - enough (H : sat (request_headers env) w
                  (fun r w' => config_outcome env w w' r)) by exact H.
    unfold request_headers. cbv zeta.
    apply sat_bind. eapply sat_mono; [apply config_token_spec|].
    intros [tok | e |] w1 [S1 C1]; auto.
    apply step_rel_steps in S1.
    destruct (opt_truthy tok); [|exact I].
    apply sat_bind. eapply sat_mono; [apply config_token_spec|].
    intros [tok' | e |] w2 [S2 C2]; apply step_rel_steps in S2;
      [| eapply config_fails_widen; [exact C2 | lia | lia] | destruct C2].
    apply sat_bind.
    apply (sat_obeys fp_log_only); [apply console_debug_obeys; reflexivity|].
    intros [[] | e |] w3 S3 O3; simpl in O3; try discriminate.
    apply step_rel_steps in S3.
    apply sat_bind. eapply sat_mono; [apply config_token_spec|].
    intros [tok'' | e |] w4 [S4 C4]; apply step_rel_steps in S4;
      [exact I | eapply config_fails_widen; [exact C4 | lia | lia]
      | destruct C4].
Qed.

(** * The query of the release API (updater.ts, getLatestVersion) *)

(** What one query that is not short-circuited comes to. It makes one bare
    request to the release API, unless reading the configuration threw
    before. A reply with a truthy [tag_name] gives the release and leaves
    [reset]; any other reply gives null and assigns [reset]. *)
Definition query_outcome (env : Env) (w w' : World)
    (r : Outcome (option Version)) : Prop :=
  match r with
  | Ok v =>
      exists k res data,
        (steps w <= k < steps w')%nat /\
        env_fetch env k api_uri = Gives res /\
        json res = Gives data /\
        requests (trace w') = (requests (trace w) ++ [(api_uri, [])])%list /\
        match truthy_value (tag_name data) with
        | Some tag =>
            v = Some (mkVersion tag (zipball_url data)) /\ reset w' = reset w
        | None =>
            v = None /\
            exists now,
              reset w' = num_scale_sub (Number (x_ratelimit_reset res)) 1000 now
        end
  | Thrown e =>
      reset w' = reset w /\
      ((requests (trace w') = requests (trace w) /\
        exists k, (steps w <= k < steps w')%nat /\ env_vscu env k = Fails e)
       \/
       (requests (trace w') = (requests (trace w) ++ [(api_uri, [])])%list /\
        exists k, (steps w <= k < steps w')%nat /\
                  (env_fetch env k api_uri = Fails e \/
                   exists res, env_fetch env k api_uri = Gives res /\
                               json res = Fails e)))
  | Exited => False
  end.

(** Log lines and bare requests to the release API; the notification state
    is kept. *)
Definition fp_query : Footprint :=
  mkFootprint
    (fun e => match e with
              | EvLog _ _ => true
              | EvFetch url [] => (url =? api_uri)%string
              | _ => false
              end)
    false true true false.

Lemma getLatestVersion_query env w :
  num_gt (reset w) 100 = false ->
  sat (getLatestVersion env) w (fun r w' => query_outcome env w w' r).
Proof.
  intros L. unfold getLatestVersion.
  apply sat_bind, sat_gets. rewrite L.
  apply sat_try_rethrow.
  apply sat_bind. eapply sat_mono; [apply request_headers_spec|].
  intros [hdrs | e |] w1 [S1 C1]; [| | destruct C1].
  2: { split; [apply (step_rel_reset fp_logs); auto|]. left. split; auto.
       apply (step_rel_requests fp_logs); auto. }
  pose proof (step_rel_steps _ _ _ S1) as N1.
  pose proof (step_rel_reset fp_logs _ _ eq_refl S1) as R1.
  pose proof (step_rel_requests fp_logs _ _ (fun _ _ => eq_refl) S1) as Q1.
  cbv zeta. unfold fetch.
  apply sat_bind, sat_bind, sat_emit.
  set (w2 := add_event (EvFetch api_uri []) w1).
  assert (Q2 : requests (trace w2)
               = (requests (trace w) ++ [(api_uri, [])])%list).
  { unfold w2; simpl. rewrite requests_app, Q1. reflexivity. }
  assert (N2 : steps w2 = steps w1) by reflexivity.
  unfold sat at 1. unfold answer.
  change (steps w2) with (steps w1).
  destruct (env_fetch env (steps w1) api_uri) as [res | e] eqn:E; cbn [fst snd].
  2: { split; [exact R1|]. right. split; [exact Q2|].
       exists (steps w1). simpl. split; [lia | auto]. }
  apply sat_bind. destruct (json res) as [data | e] eqn:J.
  2: { simpl. split; [exact R1|]. right. split; [exact Q2|].
       exists (steps w1). split; [simpl; lia|]. right. exists res. auto. }
  apply sat_ret. apply sat_bind.
  apply (sat_obeys fp_log_only); [apply console_debug_obeys; reflexivity|].
  intros [[] | e |] w3 S3 O3; simpl in O3; try discriminate.
  pose proof (step_rel_steps _ _ _ S3) as N3. simpl in N3.
  pose proof (step_rel_reset fp_log_only _ _ eq_refl S3) as R3. simpl in R3.
  pose proof (step_rel_requests fp_log_only _ _ (fun _ _ => eq_refl) S3) as Q3.
  change (trace (tick w2)) with (trace w2) in Q3. rewrite Q2 in Q3.
  destruct (truthy_value (tag_name data)) as [tag|] eqn:TV.
  - apply sat_ret. exists (steps w1), res, data.
    split; [lia|]. split; [exact E|]. split; [exact J|].
    split; [exact Q3|]. rewrite TV. split; [reflexivity | congruence].
  - apply sat_bind.
    apply (sat_obeys fp_log_only).
    { apply obeys_when. apply console_error_obeys; reflexivity. }
    intros [[] | e |] w4 S4 O4; simpl in O4; try discriminate.
    pose proof (step_rel_steps _ _ _ S4) as N4.
    pose proof (step_rel_requests fp_log_only _ _ (fun _ _ => eq_refl) S4)
      as Q4.
    apply sat_bind. unfold sat at 1. unfold Date_now, ask. cbn [fst snd].
    apply sat_bind, sat_modify, sat_ret.
    exists (steps w1), res, data. simpl.
    split; [lia|]. split; [exact E|]. split; [exact J|].
    split; [congruence|]. rewrite TV. split; [reflexivity|]. eauto.
Qed.

(** C9 (as the code has it). While [reset] holds more than 100,
    [getLatestVersion] returns null at once: no request is made and the
    state is left as it is, so two consecutive calls make no request. When
    a call made with [reset] at most 100 leaves [reset] above 100, it has
    made exactly one request, to the release API, and got a reply without a
    truthy tag; the next call returns null without a request. *)
Theorem limit_short_circuit :
  forall env w,
    (num_gt (reset w) 100 = true ->
     getLatestVersion env w = (Ok None, w) /\
     getLatestVersion env (snd (getLatestVersion env w)) = (Ok None, w)) /\
    (num_gt (reset w) 100 = false ->
     forall r w1,
       getLatestVersion env w = (r, w1) ->
       num_gt (reset w1) 100 = true ->
       r = Ok None /\
       requests (new_events w w1) = [(api_uri, [])] /\
       getLatestVersion env w1 = (Ok None, w1)).
Proof.
  intros env w. split.
  { intros L. rewrite (getLatestVersion_limited env w L). split; auto.
    apply getLatestVersion_limited. exact L. }
  intros L r w1 E L1.
  pose proof (getLatestVersion_query env w L) as Q. unfold sat in Q.
  assert (O : obeys fp_any (getLatestVersion env))
    by (apply getLatestVersion_obeys; reflexivity).
  pose proof (requests_new_events (getLatestVersion env) fp_any w
                [(api_uri, [])] O) as RN.
  rewrite E in Q, RN. simpl in Q, RN.
  destruct r as [v | e |]; simpl in Q.
  - destruct Q as (k & res & data & _ & _ & _ & RQ & T).
    destruct (truthy_value (tag_name data)).
    + destruct T as [_ R]. rewrite R, L in L1. discriminate.
    + destruct T as [-> _]. split; [reflexivity|]. split; [auto|].
      apply getLatestVersion_limited. exact L1.
  - destruct Q as [R _]. rewrite R, L in L1. discriminate.
  - destruct Q.
Qed.

(** The clock reads 4950 ms and the API is limited until second 5. *)
Definition env_limit_near : Env :=
  sample_env (fun _ => 4950) sample_config "1.94.0" (net_throttled 5) no_tasks.

Lemma limit_short_circuit_witness :
  num_gt (reset initial_world) 100 = false /\
  num_gt (reset (snd (getLatestVersion env_limited initial_world))) 100 = true
  /\
  requests (new_events initial_world
              (snd (getLatestVersion env_limited initial_world)))
  = [(api_uri, [])] /\
  getLatestVersion env_limited
    (snd (getLatestVersion env_limited initial_world))
  = (Ok None, snd (getLatestVersion env_limited initial_world)).
Proof.
  assert (L : num_gt (reset initial_world) 100 = false) by reflexivity.
  assert (L1 : num_gt (reset (snd (getLatestVersion env_limited
                                     initial_world))) 100 = true)
    by (vm_compute; reflexivity).
  split; [exact L|]. split; [exact L1|].
  destruct (limit_short_circuit env_limited initial_world) as [_ H].
  destruct (H L _ _ (surjective_pairing _) L1) as (_ & RQ & N).
  split; [exact RQ | exact N].
Defined.

(** C9 fails as stated. With a stored remaining time of 5000 ms, two
    consecutive calls make no request at all. With a stored remaining time
    of 50 ms, left by a reply that announced the end of the limit 50 ms
    ahead, two consecutive calls make two requests. In neither state is
    the number of requests one. *)
Lemma two_calls_not_one_request :
  let twice env w :=
    snd (getLatestVersion env (snd (getLatestVersion env w))) in
  let w_far := mkWorld 0 [] (Num 5000) "" 0 None 0 in
  let w_near := snd (getLatestVersion env_limit_near initial_world) in
  reset w_far = Num 5000 /\
  requests (new_events w_far (twice env_limited w_far)) = [] /\
  reset w_near = Num 50 /\
  requests (new_events w_near (twice env_limit_near w_near))
  = [(api_uri, []); (api_uri, [])] /\
  List.length (requests (new_events w_far (twice env_limited w_far)))
  <> 1%nat /\
  List.length (requests (new_events w_near (twice env_limit_near w_near)))
  <> 1%nat.
Proof. vm_compute. repeat split; discriminate. Qed.

(** * Where the archive comes from (updater.ts, downloadLatest) *)

(** [tag] is the truthy [tag_name] of a reply that the release API gave at
    an interaction in the window. *)
Definition reported (env : Env) (lo hi : nat) (tag : string) : Prop :=
  exists k res data,
    (lo <= k < hi)%nat /\
    env_fetch env k api_uri = Gives res /\
    json res = Gives data /\
    truthy_value (tag_name data) = Some tag.

(** A request of a cycle: the query of the release API, or the download of
    the archive named after a tag reported in the window. *)
Definition good_request (env : Env) (lo hi : nat) (rq : string * Headers)
  : Prop :=
  fst rq = api_uri \/
  exists tag, reported env lo hi tag /\ fst rq = download_url tag.

Lemma good_request_widen env lo hi hi' rq :
  (hi <= hi')%nat -> good_request env lo hi rq -> good_request env lo hi' rq.
Proof.
  intros L [A | (tag & (k & res & data & K & R) & U)]; [left; auto|].
  right. exists tag. split; auto. exists k, res, data. split; [lia | exact R].
Qed.

(** The invariant of a cycle started in [w0]. *)
Definition cycle_inv (env : Env) (w0 w : World) : Prop :=
  (steps w0 <= steps w)%nat /\
  exists new,
    trace w = (trace w0 ++ new)%list /\
    Forall (good_request env (steps w0) (steps w)) (requests new).

Lemma cycle_inv_refl env w : cycle_inv env w w.
Proof.
  split; auto. exists []. rewrite app_nil_r. split; auto.
Qed.

Lemma cycle_inv_extend env w0 w w' new :
  cycle_inv env w0 w ->
  (steps w <= steps w')%nat ->
  trace w' = (trace w ++ new)%list ->
  Forall (good_request env (steps w0) (steps w')) (requests new) ->
  cycle_inv env w0 w'.
Proof.
  intros (S0 & old & T0 & G0) S1 T1 G1. split; [lia|].
  exists (old ++ new)%list. split.
  - rewrite T1, T0, app_assoc. reflexivity.
  - rewrite requests_app. apply Forall_app. split; auto.
    eapply Forall_impl; [|exact G0].
    intros rq. apply good_request_widen. exact S1.
Qed.

(** Anything but a request to another address than the release API. *)
Definition fp_no_download : Footprint :=
  mkFootprint
    (fun e => match e with
              | EvFetch url _ => (url =? api_uri)%string
              | _ => true
              end)
    false false true false.

(** Anything, with requests to the archive of [tag] only. *)
Definition fp_download (tag : string) : Footprint :=
  mkFootprint
    (fun e => match e with
              | EvFetch url _ => (url =? download_url tag)%string
              | _ => true
              end)
    false false true false.

Lemma cycle_inv_step env w0 w w' :
  cycle_inv env w0 w -> step_rel fp_no_download w w' -> cycle_inv env w0 w'.
Proof.
  intros I (S & (new & T & P) & _).
  apply (cycle_inv_extend env w0 w w' new); auto.
  clear T. induction P as [|e l He _ IH]; simpl; [constructor|].
  destruct e; auto. constructor; auto.
  left. simpl in *. apply String.eqb_eq. exact He.
Qed.

Lemma cycle_inv_download env w0 w w' tag :
  cycle_inv env w0 w ->
  reported env (steps w0) (steps w) tag ->
  step_rel (fp_download tag) w w' ->
  cycle_inv env w0 w'.
Proof.
  intros I (k & res & data & K & R) (S & (new & T & P) & _).
  apply (cycle_inv_extend env w0 w w' new); auto.
  clear T. induction P as [|e l He _ IH]; simpl; [constructor|].
  destruct e; auto. constructor; auto.
  right. exists tag. simpl in *. split.
  - exists k, res, data. split; [lia | exact R].
  - apply String.eqb_eq. exact He.
Qed.

Lemma downloadLatest_obeys_at env F v :
  allows F (EvFetch (download_url v) []) = true ->
  (forall p d, allows F (EvWriteFile p d) = true) ->
  may_throw F = true ->
  obeys F (downloadLatest env v).
Proof.
  intros A W T. unfold downloadLatest, fetch, writeFileSync. obeys_tac.
Qed.

(** The release that a query returns was reported during the query. *)
Lemma getLatestVersion_reported env w :
  sat (getLatestVersion env) w
      (fun r w' =>
         step_rel fp_no_download w w' /\
         forall v, r = Ok (Some v) ->
                   reported env (steps w) (steps w') (version v)).
Proof.
  split; [apply getLatestVersion_obeys; reflexivity|].
  destruct (num_gt (reset w) 100) eqn:L.
  - rewrite (getLatestVersion_limited env w L). simpl. discriminate.
  - pose proof (getLatestVersion_query env w L) as Q. unfold sat in Q.
    destruct (fst (getLatestVersion env w)) as [r | e |]; try discriminate.
    intros v E. inversion E; subst r. simpl in Q.
    destruct Q as (k & res & data & K & F & J & _ & T).
    exists k, res, data. repeat split; try apply K; auto.
    destruct (truthy_value (tag_name data)) as [tag|].
    + destruct T as [T _]. inversion T. reflexivity.
    + destruct T as [T _]. discriminate.
Qed.

Lemma updateProcess_inv env w0 w :
  cycle_inv env w0 w ->
  sat (updateProcess env) w (fun _ w' => cycle_inv env w0 w').
Proof.
  intros I. unfold updateProcess. apply sat_try_rethrow.
  apply sat_bind.
  apply (sat_obeys fp_no_download); [apply checkUpdate_obeys; reflexivity|].
  intros r w1 S1 _. pose proof (cycle_inv_step _ _ _ _ I S1) as I1.
  destruct r as [need | e |]; auto.
  destruct need; simpl; [|exact I1].
  apply sat_bind. eapply sat_mono; [apply getLatestVersion_reported|].
  intros r w2 [S2 R2]. pose proof (cycle_inv_step _ _ _ _ I1 S2) as I2.
  destruct r as [[latest|] | e |]; auto.
  specialize (R2 latest eq_refl).
  assert (R : reported env (steps w0) (steps w2) (version latest)).
  { destruct R2 as (k & res & data & K & R). exists k, res, data.
    split; [destruct I1; lia | exact R]. }
  apply sat_bind.
  apply (sat_obeys fp_no_download); [apply console_debug_obeys; reflexivity|].
  intros r w3 S3 _. pose proof (cycle_inv_step _ _ _ _ I2 S3) as I3.
  destruct r as [[] | e |]; auto.
  assert (R' : reported env (steps w0) (steps w3) (version latest)).
  { destruct R as (k & res & data & K & R). exists k, res, data.
    apply step_rel_steps in S3. split; [lia | exact R]. }
  apply sat_bind.
  apply (sat_obeys (fp_download (version latest))).
  { apply downloadLatest_obeys_at; try reflexivity.
    simpl. apply String.eqb_refl. }
  intros r w4 S4 _.
  pose proof (cycle_inv_download _ _ _ _ _ I3 R' S4) as I4.
  destruct r as [archivePath | e |]; auto.
  apply sat_bind.
  apply (sat_obeys fp_no_download); [apply config_dir_obeys; reflexivity|].
  intros r w5 S5 _. pose proof (cycle_inv_step _ _ _ _ I4 S5) as I5.
  destruct r as [d | e |]; auto.
  apply sat_bind.
  apply (sat_obeys fp_no_download); [apply decompress_obeys; reflexivity|].
  intros r w6 S6 _. pose proof (cycle_inv_step _ _ _ _ I5 S6) as I6.
  destruct r as [[] | e |]; auto.
  apply (sat_obeys fp_no_download); [apply removeSync_obeys; reflexivity|].
  intros r w7 S7 _. apply (cycle_inv_step _ _ _ _ I6 S7).
Qed.

Lemma run_inv env w :
  sat (run env) w (fun _ w' => cycle_inv env w w').
Proof.
  pose proof (cycle_inv_refl env w) as I.
  unfold run. apply sat_try_rethrow.
  apply sat_bind.
  apply (sat_obeys fp_no_download); [apply checkUpdate_obeys; reflexivity|].
  intros r w1 S1 _. pose proof (cycle_inv_step _ _ _ _ I S1) as I1.
  destruct r as [need | e |]; auto.
  destruct need; [|exact I1].
  apply sat_bind.
  apply (sat_obeys fp_no_download);
    [apply isProcessRunning_obeys; reflexivity|].
  intros r w2 S2 _. pose proof (cycle_inv_step _ _ _ _ I1 S2) as I2.
  destruct r as [running | e |]; auto.
  destruct running; simpl.
  - apply (sat_obeys fp_no_download); [apply notify_obeys; reflexivity|].
    intros r w3 S3 _. apply (cycle_inv_step _ _ _ _ I2 S3).
  - apply sat_bind.
    apply (sat_obeys fp_no_download);
      [apply getLatestVersion_obeys; reflexivity|].
    intros r w3 S3 _. pose proof (cycle_inv_step _ _ _ _ I2 S3) as I3.
    destruct r as [latest | e |]; auto.
    apply sat_bind.
    apply (sat_obeys fp_no_download).
    { destruct latest; [apply notify_obeys; reflexivity | apply obeys_ret]. }
    intros r w4 S4 _. pose proof (cycle_inv_step _ _ _ _ I3 S4) as I4.
    destruct r as [[] | e |]; auto.
    apply updateProcess_inv. exact I4.
Qed.

(** C1 (as the code has it). Every request of one cycle is either the
    query of the release API or the download of the archive from the address
    that [download_url] builds from a version tag: the truthy [tag_name] of
    a reply that the release API gave to a query made during this cycle.
    The [zipball_url] of the reply is stored as [zipurl] and is not the
    address of any request. *)
Theorem archive_fetched_from_version_url :
  forall env w,
    Forall (good_request env (steps w) (steps (snd (run env w))))
           (requests (new_events w (snd (run env w)))).
Proof.
  intros env w. destruct (run_inv env w) as (_ & new & T & G).
  rewrite (new_events_app _ _ _ T). exact G.
Qed.

(** The release API reports release 1.95.0 with its [zipball_url]; version
    1.94.0 is installed and Code.exe is not running. *)
Definition env_update : Env :=
  sample_env (fun _ => 1000) sample_config "1.94.0" (net_release "1.95.0")
             no_tasks.

(** C1 fails as stated. The release that [getLatestVersion] returns has
    the [zipball_url] of the reply as its [zipurl]; the cycle applies the
    update, and the one archive it downloads, writes, unpacks and removes
    comes from another address. No request goes to the [zipball_url]. *)
Lemma archive_not_from_zipball_url :
  let w' := snd (run env_update initial_world) in
  fst (getLatestVersion env_update initial_world)
  = Ok (Some (mkVersion "1.95.0" (Some sample_zipball))) /\
  fst (run env_update initial_world) = Ok tt /\
  updates (trace w')
  = [EvFetch (download_url "1.95.0") [];
     EvWriteFile "C:\Temp\VSCode-win32-x64-1.95.0.zip" [Byte.x50; Byte.x4b];
     EvDecompress "C:\Temp\VSCode-win32-x64-1.95.0.zip" "C:\VSCode";
     EvRemove "C:\Temp\VSCode-win32-x64-1.95.0.zip"] /\
  map fst (requests (trace w'))
  = [api_uri; api_uri; api_uri; api_uri; download_url "1.95.0"] /\
  download_url "1.95.0" <> sample_zipball /\
  ~ In sample_zipball (map fst (requests (trace w'))).
Proof.
  vm_compute. repeat split; try discriminate.
  intros H. repeat (destruct H as [H | H]; [discriminate H|]). exact H.
Qed.

(** * One cycle on a healthy machine (updater.ts, run) *)

Lemma download_url_not_api v : (download_url v =? api_uri)%string = false.
Proof. reflexivity. Qed.

(** Following the spec (section 3): the [CycleOutcome] of a cycle. [run]
    returns nothing, so the outcome is read off how the call ended and what
    it did: it threw; or it removed the archive, the last step of an
    update; or it showed the notice that Code.exe is running; or none of
    these. *)
Inductive CycleOutcome : Type :=
| NoUpdateNeeded
| UpdateAppliedOk
| UpdateSkippedBusy
| Failed (reason : Error).

Definition is_remove (e : Event) : bool :=
  match e with EvRemove _ => true | _ => false end.

Definition is_busy_notice (e : Event) : bool :=
  match e with
  | EvShow _ body => (body =? busy_notice)%string
  | _ => false
  end.

Definition spec_outcome (r : Outcome unit) (new : list Event) : CycleOutcome :=
  match r with
  | Thrown e => Failed e
  | _ =>
      if existsb is_remove new then UpdateAppliedOk
      else if existsb is_busy_notice new then UpdateSkippedBusy
      else NoUpdateNeeded
  end.

(** Log lines, bare queries of the release API, notifications. *)
Definition fp_check : Footprint :=
  mkFootprint
    (fun e => match e with
              | EvLog _ _ | EvShow _ _ | EvNotifyDelay _ => true
              | EvFetch url [] => (url =? api_uri)%string
              | _ => false
              end)
    false false true false.

(** The command that lists the processes; both states are kept. *)
Definition fp_command : Footprint :=
  mkFootprint (fun e => match e with EvCommand _ _ => true | _ => false end)
              true true true false.


Lemma fp_silent_any F w w' : step_rel fp_silent w w' -> step_rel F w w'.
Proof.
  intros (S & (new & E & P) & R & N). repeat split; auto; try apply N; auto.
  exists new. split; auto. destruct P as [|e l He _]; auto. discriminate.
Qed.

Lemma fp_check_no_update e : allows fp_check e = true -> is_update e = false.
Proof.
  destruct e; simpl; intros H; try discriminate; auto.
  destruct headers; [|discriminate]. rewrite H. reflexivity.
Qed.

Lemma fp_log_only_no_update e :
  allows fp_log_only e = true -> is_update e = false.
Proof. destruct e; simpl; intros H; try discriminate; auto. Qed.

Lemma fp_command_no_update e :
  allows fp_command e = true -> is_update e = false.
Proof. destruct e; simpl; intros H; try discriminate; auto. Qed.

Lemma allowed_existsb F (p : Event -> bool) l :
  (forall e, allows F e = true -> p e = false) ->
  Forall (fun e => allows F e = true) l -> existsb p l = false.
Proof.
  intros N H. induction H as [|e l He _ IH]; simpl; auto.
  rewrite (N e He). exact IH.
Qed.

Section Healthy.

Variable env : Env.
Variables installed latest : string.

(** The configuration is readable, the manifest is there and holds version
    [installed], and the release API reports the tag [latest]. *)
Hypothesis H_config : forall n, exists c, env_vscu env n = Gives c.
Hypothesis H_stat : forall n, env_stat env n = Found.
Hypothesis H_manifest : forall n, env_manifest env n = Gives (Some installed).
Hypothesis H_api :
  forall n, exists res data,
    env_fetch env n api_uri = Gives res /\
    json res = Gives data /\
    tag_name data = Some latest.







(** The process list says whether Code.exe is [running]. *)
Variable running : bool.
Hypothesis H_tasks :
  forall n, exists out,
    env_tasklist env n = Gives out /\ includes out "Code.exe" = running.


(** The download host serves the archive of [latest], and the archive can
    be written, unpacked and removed. *)
Hypothesis H_download :
  forall n, exists res body,
    env_fetch env n (download_url latest) = Gives res /\
    ok res = true /\
    arrayBuffer res = Gives body.
Hypothesis H_write : forall n, env_write env n = Gives tt.
Hypothesis H_decompress : forall n, env_decompress env n = Gives tt.
Hypothesis H_remove : forall n, env_remove env n = Gives tt.




End Healthy.

(** ** The three outcomes of a cycle *)





(** The version of a release that [getLatestVersion] returns is never the
    empty string: a reply with an empty tag is treated as no release. *)
Lemma release_version_truthy env w v :
  fst (getLatestVersion env w) = Ok (Some v) -> version v <> "".
Proof.
  intros E.
  destruct (getLatestVersion_reported env w) as [_ R].
  destruct (R v E) as (k & res & data & _ & _ & _ & T).
  unfold truthy_value in T. destruct (tag_name data) as [s|]; [|discriminate].
  unfold str_truthy in T.
  destruct (String.eqb_spec s ""); simpl in T; [discriminate|].
  inversion T. congruence.
Qed.

(** When [getLocalVersion] returns a version, it has shown nothing. *)
Lemma getLocalVersion_found env w v w1 :
  getLocalVersion env w = (Ok (Some v), w1) -> step_rel fp_silent w w1.
Proof.
  intros H. unfold getLocalVersion in H. rewrite try_rethrow in H.
  unfold bind in H.
  pose proof (config_dir_obeys env fp_silent eq_refl w) as [S1 _].
  destruct (config_dir env w) as [[d | e |] wa]; try discriminate.
  simpl in S1. unfold exists_, bind, ask, ret in H. cbn [fst snd] in H.
  destruct (env_stat env (steps wa)); try discriminate.
  - unfold answer in H.
    destruct (env_manifest env (steps (tick wa))); inversion H; subst.
    eapply step_rel_trans; [exact S1|].
    eapply step_rel_trans; apply step_rel_tick.
  - destruct (notify_spec env "Vscode Updater Error"
                "Unable to find the local version, please check the path in the configuration file."
                (tick wa)) as (wb & shown & E & _).
    rewrite E in H. discriminate.
Qed.

Lemma fp_query_no_update e : allows fp_query e = true -> is_update e = false.
Proof.
  intros H. apply fp_check_no_update.
  destruct e; simpl in *; auto; discriminate.
Qed.

Lemma fp_check_requests l :
  Forall (fun e => allows fp_check e = true) l ->
  Forall (fun rq => rq = (api_uri, [])) (requests l).
Proof.
  intros P. induction P as [|e l He _ IH]; simpl; auto.
  destruct e; auto. constructor; auto. simpl in He.
  destruct headers; [|discriminate].
  apply String.eqb_eq in He. subst. reflexivity.
Qed.

(** C4. Equal versions: when the manifest gives a version and the release
    that the query returns has the same version string, the cycle ends
    right after the query. It returns normally and has made no download, no
    write of an archive, no extraction and no removal; its one request is
    the query of the release API. Its outcome is [NoUpdateNeeded]. *)
Theorem equal_versions_no_update :
  forall env w v z w1 w2,
    getLocalVersion env w = (Ok (Some v), w1) ->
    getLatestVersion env w1 = (Ok (Some (mkVersion v z)), w2) ->
    run env w = (Ok tt, w2) /\
    updates (new_events w w2) = [] /\
    Forall (fun rq => rq = (api_uri, [])) (requests (new_events w w2)) /\
    spec_outcome (Ok tt) (new_events w w2) = NoUpdateNeeded.
Proof.
  intros env w v z w1 w2 H1 H2.
  assert (R : run env w = (Ok tt, w2)).
  { unfold run, checkUpdate. rewrite !try_rethrow.
    unfold bind. rewrite try_rethrow. unfold bind. rewrite H1, H2.
    simpl version. rewrite String.eqb_refl. reflexivity. }
  split; [exact R|].
  pose proof (getLocalVersion_found env w v w1 H1) as S1.
  pose proof (getLatestVersion_obeys env fp_query (fun _ _ => eq_refl) eq_refl
                eq_refl eq_refl w1) as [S2 _].
  rewrite H2 in S2. simpl in S2.
  pose proof (step_rel_trans _ _ _ _ (fp_silent_any fp_query _ _ S1) S2)
    as (_ & (new & T & P) & _).
  rewrite (new_events_app _ _ _ T).
  split; [|split].
  - apply (allowed_updates fp_query); auto. apply fp_query_no_update.
  - apply fp_check_requests. eapply Forall_impl; [|exact P].
    intros [] H; simpl in *; auto; discriminate.
  - unfold spec_outcome.
    rewrite (allowed_existsb fp_query is_remove new) by
      (auto; intros []; simpl; auto; discriminate).
    rewrite (allowed_existsb fp_query is_busy_notice new) by
      (auto; intros []; simpl; auto; discriminate).
    reflexivity.
Qed.



(** When [checkUpdate] says that an update is needed, the last message
    given to [notify] is "Update available!". *)
Lemma checkUpdate_true_lastMessage env w w1 :
  checkUpdate env w = (Ok true, w1) -> lastMessage w1 = "Update available!".
Proof.
  intros H. unfold checkUpdate in H. rewrite try_rethrow in H.
  unfold bind in H.
  destruct (getLocalVersion env w) as [[[local|] | e |] wa]; try discriminate.
  destruct (getLatestVersion env wa) as [[latest | e |] wb]; try discriminate.
  cbv zeta in H.
  destruct (match latest with
            | Some latest0 => negb (version latest0 =? local)%string
            | None => false
            end); [|discriminate].
  unfold when in H.
  destruct (notify_spec env "Vscode Updater" "Update available!" wb)
    as (wc & shown & E & _ & L & _).
  rewrite E in H. inversion H; subst. exact L.
Qed.

(** C6. Different versions, Code.exe running: when [checkUpdate] says that
    an update is needed and the process list contains Code.exe, the cycle
    shows the notice that asks to close vscode and returns normally. It has
    made no download and no other step on the installation; its requests
    are queries of the release API. Its outcome is [UpdateSkippedBusy]. *)
Theorem busy_update_skipped :
  forall env w w1 w2,
    checkUpdate env w = (Ok true, w1) ->
    isProcessRunning env "Code.exe" w1 = (Ok true, w2) ->
    exists ms w3,
      run env w = (Ok tt, w3) /\
      trace w3
      = (trace w2 ++ [EvNotifyDelay ms; EvShow "Vscode Updater" busy_notice])
        %list /\
      updates (new_events w w3) = [] /\
      Forall (fun rq => rq = (api_uri, [])) (requests (new_events w w3)) /\
      spec_outcome (Ok tt) (new_events w w3) = UpdateSkippedBusy.
Proof.
  intros env w w1 w2 H1 H2.
  pose proof (checkUpdate_true_lastMessage env w w1 H1) as L1.
  pose proof (checkUpdate_obeys env fp_check (fun _ _ => eq_refl)
                (fun _ _ => eq_refl) (fun _ => eq_refl) eq_refl eq_refl
                eq_refl eq_refl w) as [S1 _].
  rewrite H1 in S1. simpl in S1.
  pose proof (isProcessRunning_obeys env fp_command (fun _ _ => eq_refl)
                eq_refl "Code.exe" w1) as [S2 _].
  rewrite H2 in S2. simpl in S2.
  pose proof (step_rel_lastMessage fp_command _ _ eq_refl S2) as L2.
  destruct (notify_spec env "Vscode Updater" busy_notice w2)
    as (w3 & shown & E3 & T3 & _ & _ & C3).
  destruct C3 as [(C & _) | (_ & ms & ->)].
  { rewrite L2, L1 in C. discriminate C. }
  exists ms, w3.
  assert (R : run env w = (Ok tt, w3)).
  { unfold run. rewrite try_rethrow. unfold bind. rewrite H1, H2. exact E3. }
  split; [exact R|]. split; [exact T3|].
  destruct S1 as (_ & (new1 & T1 & P1) & _).
  destruct S2 as (_ & (new2 & T2 & P2) & _).
  assert (T : trace w3
              = (trace w ++ (new1 ++ new2) ++
                 [EvNotifyDelay ms; EvShow "Vscode Updater" busy_notice])%list).
  { rewrite T3, T2, T1, <- !app_assoc. reflexivity. }
  rewrite (new_events_app _ _ _ T).
  rewrite !updates_app, !requests_app.
  rewrite (allowed_updates fp_check new1 fp_check_no_update P1).
  rewrite (allowed_updates fp_command new2 fp_command_no_update P2).
  rewrite (allowed_requests fp_command new2 (fun _ _ => eq_refl) P2).
  split; [reflexivity|]. split.
  { simpl. rewrite !app_nil_r. apply fp_check_requests. exact P1. }
  unfold spec_outcome.
  assert (X : existsb is_remove
                ((new1 ++ new2) ++
                 [EvNotifyDelay ms; EvShow "Vscode Updater" busy_notice])
              = false).
  { rewrite !existsb_app.
    rewrite (allowed_existsb fp_check is_remove new1) by
      (auto; intros []; simpl; auto; discriminate).
    rewrite (allowed_existsb fp_command is_remove new2) by
      (auto; intros []; simpl; auto; discriminate).
    reflexivity. }
  assert (B : existsb is_busy_notice
                ((new1 ++ new2) ++
                 [EvNotifyDelay ms; EvShow "Vscode Updater" busy_notice])
              = true).
  { rewrite existsb_app. apply orb_true_iff. right. reflexivity. }
  rewrite X, B. reflexivity.
Qed.

(** Sample machines for the three cases. *)
Definition env_same : Env :=
  sample_env (fun _ => 1000) sample_config "1.95.0" (net_release "1.95.0")
             no_tasks.

Definition env_busy : Env :=
  sample_env (fun _ => 1000) sample_config "1.94.0" (net_release "1.95.0")
             code_running.




Lemma equal_versions_no_update_witness :
  let w1 := snd (getLocalVersion env_same initial_world) in
  let w2 := snd (getLatestVersion env_same w1) in
  getLocalVersion env_same initial_world = (Ok (Some "1.95.0"), w1) /\
  getLatestVersion env_same w1
  = (Ok (Some (mkVersion "1.95.0" (Some sample_zipball))), w2) /\
  run env_same initial_world = (Ok tt, w2) /\
  updates (new_events initial_world w2) = [].
Proof.
  intros w1 w2.
  assert (H1 : getLocalVersion env_same initial_world
               = (Ok (Some "1.95.0"), w1)) by (vm_compute; reflexivity).
  assert (H2 : getLatestVersion env_same w1
               = (Ok (Some (mkVersion "1.95.0" (Some sample_zipball))), w2))
    by (vm_compute; reflexivity).
  split; [exact H1|]. split; [exact H2|].
  destruct (equal_versions_no_update env_same initial_world "1.95.0"
              (Some sample_zipball) w1 w2 H1 H2) as (R & U & _).
  split; [exact R | exact U].
Defined.





Lemma busy_update_skipped_witness :
  let w1 := snd (checkUpdate env_busy initial_world) in
  let w2 := snd (isProcessRunning env_busy "Code.exe" w1) in
  checkUpdate env_busy initial_world = (Ok true, w1) /\
  isProcessRunning env_busy "Code.exe" w1 = (Ok true, w2) /\
  exists ms w3,
    run env_busy initial_world = (Ok tt, w3) /\
    trace w3
    = (trace w2 ++ [EvNotifyDelay ms; EvShow "Vscode Updater" busy_notice])
      %list /\
    updates (new_events initial_world w3) = [].
Proof.
  intros w1 w2.
  assert (H1 : checkUpdate env_busy initial_world = (Ok true, w1))
    by (vm_compute; reflexivity).
  assert (H2 : isProcessRunning env_busy "Code.exe" w1 = (Ok true, w2))
    by (vm_compute; reflexivity).
  split; [exact H1|]. split; [exact H2|].
  destruct (busy_update_skipped env_busy initial_world w1 w2 H1 H2)
    as (ms & w3 & R & T & U & _).
  exists ms, w3. split; [exact R|]. split; [exact T | exact U].
Defined.

(** * Further properties of the code *)

(** ** The printed duration (utils.ts, formatMillisecondes) *)

(** The four numbers that [formatMillisecondes] prints: days, then the
    hours, minutes and seconds that remain. *)
Definition duration_parts (ms : Z) : Z * Z * Z * Z :=
  let secondes := ms / 1000 in
  let minutes := secondes / 60 in
  let heures := minutes / 60 in
  let days := heures / 24 in
  (days, Z.rem heures 24, Z.rem minutes 60, Z.rem secondes 60).

(** How they are printed: a part that is zero is left out, except the
    seconds. *)
Definition print_duration (p : Z * Z * Z * Z) : string :=
  let '(days, hours, minutes, seconds) := p in
  (if days >? 0 then string_of_Z days ++ " days, " else "") ++
  (if negb (hours =? 0) then string_of_Z hours ++ " heures, " else "") ++
  (if negb (minutes =? 0) then string_of_Z minutes ++ " minutes et " else "")
  ++ string_of_Z seconds ++ " secondes".

(** X1. For a duration between 0 and [max_time] (the range in which the
    arithmetic of the code is exact), the numbers printed are in range
    (hours under 24, minutes and seconds under 60) and add up to the whole
    seconds of the duration. *)
Theorem formatMillisecondes_parts :
  forall ms,
    0 <= ms <= max_time ->
    let '(days, hours, minutes, seconds) := duration_parts ms in
    formatMillisecondes ms = print_duration (days, hours, minutes, seconds) /\
    0 <= days /\ 0 <= hours < 24 /\ 0 <= minutes < 60 /\ 0 <= seconds < 60 /\
    ((days * 24 + hours) * 60 + minutes) * 60 + seconds = ms / 1000.
Proof.
  intros ms [P _]. unfold duration_parts. cbv zeta.
  split; [reflexivity|].
  assert (S : 0 <= ms / 1000) by (apply Z.div_pos; lia).
  assert (M : 0 <= ms / 1000 / 60) by (apply Z.div_pos; lia).
  assert (H : 0 <= ms / 1000 / 60 / 60) by (apply Z.div_pos; lia).
  rewrite !Z.rem_mod_nonneg by lia.
  pose proof (Z.mod_pos_bound (ms / 1000) 60 ltac:(lia)).
  pose proof (Z.mod_pos_bound (ms / 1000 / 60) 60 ltac:(lia)).
  pose proof (Z.mod_pos_bound (ms / 1000 / 60 / 60) 24 ltac:(lia)).
  pose proof (Z.div_mod (ms / 1000) 60 ltac:(lia)).
  pose proof (Z.div_mod (ms / 1000 / 60) 60 ltac:(lia)).
  pose proof (Z.div_mod (ms / 1000 / 60 / 60) 24 ltac:(lia)).
  split; [apply Z.div_pos; lia|]. repeat split; lia.
Qed.

Lemma formatMillisecondes_parts_witness :
  0 <= 5000000 <= max_time /\
  formatMillisecondes 5000000 = "1 heures, 23 minutes et 20 secondes" /\
  ((0 * 24 + 1) * 60 + 23) * 60 + 20 = 5000000 / 1000.
Proof.
  assert (P : 0 <= 5000000 <= max_time) by (unfold max_time; lia).
  split; [exact P|].
  pose proof (formatMillisecondes_parts 5000000 P) as H.
  change (duration_parts 5000000) with (0, 1, 23, 20) in H.
  destruct H as (F & _ & _ & _ & _ & R).
  split; [exact F | exact R].
Defined.

(** ** The check of the configuration (config.ts, checkConfig) *)

Definition lists_vscu (files : list DirEntry) : bool :=
  existsb (fun file => isFile file && (name file =? "vscu.json")%string) files.

(** What the untyped content must be for [checkConfig] to accept it. *)
Definition accepted (d i : JsVal) : Prop :=
  exists s z, d = JStr s /\ i = JNum (Num z) /\ s <> "" /\ z <> 0.

Definition config_error_log (e : Error) : Event :=
  EvLog LError ("Error in configuration file: " ++ message e).

(** [checkConfig], case by case on what the directory and the file give. *)
Lemma checkConfig_cases env w :
  match env_readDir env (steps w) with
  | Fails e => checkConfig env w = (Thrown e, tick w)
  | Gives files =>
      if lists_vscu files then
        match env_vscu_raw env (S (steps w)) with
        | VscuUnreadable e => checkConfig env w = (Thrown e, tick (tick w))
        | VscuMalformed e =>
            checkConfig env w
            = (Thrown e, add_event (config_error_log e) (tick (tick w)))
        | VscuParsed d i =>
            (accepted d i /\ checkConfig env w = (Ok true, tick (tick w))) \/
            (~ accepted d i /\
             exists e,
               checkConfig env w
               = (Thrown e, add_event (config_error_log e) (tick (tick w))))
        end
      else checkConfig env w = (Ok false, tick w)
  end.
Proof.
  unfold checkConfig, lists_vscu, bind, answer, ask.
  destruct (env_readDir env (steps w)) as [files | e]; [|reflexivity].
  destruct (existsb _ files); cbn [negb]; [|reflexivity].
  change (steps (tick w)) with (S (steps w)).
  destruct (env_vscu_raw env (S (steps w))) as [e | e | d i];
    [reflexivity | reflexivity |].
  unfold try_catch, throw, ret, console_error, emit, modify, bind, accepted.
  destruct (js_truthy d) eqn:TD; cbn [negb].
  2: { right. split; [|eexists; reflexivity].
       intros (s & z & -> & _ & NS & _). simpl in TD. unfold str_truthy in TD.
       destruct (String.eqb_spec s ""); [contradiction | discriminate]. }
  destruct (is_string d) eqn:SD; cbn [negb].
  2: { right. split; [|eexists; reflexivity].
       intros (s & z & -> & _). discriminate. }
  destruct (js_truthy i) eqn:TI; cbn [negb orb].
  2: { right. split; [|eexists; reflexivity].
       intros (s & z & _ & -> & _ & NZ). simpl in TI.
       destruct (Z.eqb_spec z 0); [contradiction | discriminate]. }
  destruct (is_number i) eqn:NI; cbn [negb].
  2: { right. split; [|eexists; reflexivity].
       intros (s & z & _ & -> & _). discriminate. }
  left. split; [|reflexivity].
  destruct d as [| | b | n | s |]; try discriminate.
  destruct i as [| | b | [z|] | s' |]; try discriminate.
  exists s, z. simpl in TD, TI. unfold str_truthy in TD.
  split; [reflexivity|]. split; [reflexivity|]. split.
  - destruct (String.eqb_spec s ""); [discriminate | assumption].
  - destruct (Z.eqb_spec z 0); [discriminate | assumption].
Qed.

(** X2. [checkConfig] returns true exactly when the directory lists a file
    named vscu.json whose parsed content has a non-empty string as [dir]
    and a number other than 0 and NaN as [interval]. It returns false
    exactly when the directory can be listed and has no such file; the file
    is then not read and nothing is logged. *)
Theorem checkConfig_result :
  forall env w,
    (fst (checkConfig env w) = Ok true <->
     exists files d i,
       env_readDir env (steps w) = Gives files /\
       lists_vscu files = true /\
       env_vscu_raw env (S (steps w)) = VscuParsed d i /\
       accepted d i) /\
    (fst (checkConfig env w) = Ok false <->
     exists files,
       env_readDir env (steps w) = Gives files /\
       lists_vscu files = false /\
       snd (checkConfig env w) = tick w).
Proof.
  intros env w. pose proof (checkConfig_cases env w) as C.
  assert (T : forall files d i,
             env_readDir env (steps w) = Gives files ->
             lists_vscu files = true ->
             env_vscu_raw env (S (steps w)) = VscuParsed d i ->
             accepted d i -> fst (checkConfig env w) = Ok true).
  { intros files d i E L R A. rewrite E, L, R in C.
    destruct C as [[_ C] | [N _]]; [rewrite C; reflexivity | contradiction]. }
  assert (F : forall files,
             env_readDir env (steps w) = Gives files ->
             lists_vscu files = false ->
             checkConfig env w = (Ok false, tick w)).
  { intros files E L. rewrite E, L in C. exact C. }
  split; split.
  - intros H. destruct (env_readDir env (steps w)) as [files | e];
      [|rewrite C in H; discriminate].
    destruct (lists_vscu files) eqn:L; [|rewrite C in H; discriminate].
    destruct (env_vscu_raw env (S (steps w))) as [e | e | d i];
      try (rewrite C in H; discriminate).
    destruct C as [[A C] | [A [e C]]]; [|rewrite C in H; discriminate].
    exists files, d, i. auto.
  - intros (files & d & i & E & L & R & A). eapply T; eauto.
  - intros H. destruct (env_readDir env (steps w)) as [files | e];
      [|rewrite C in H; discriminate].
    destruct (lists_vscu files) eqn:L.
    + destruct (env_vscu_raw env (S (steps w))) as [e | e | d i];
        try (rewrite C in H; discriminate).
      destruct C as [[A C] | [A [e C]]]; rewrite C in H; discriminate.
    + exists files. rewrite C. auto.
  - intros (files & E & L & _). rewrite (F files E L). reflexivity.
Qed.

(** X3. When [checkConfig] throws, either listing the directory or reading the
    file failed and nothing was logged, or the content was rejected and the
    one effect is the log line that carries the message of the error
    thrown. *)
Theorem checkConfig_error_logged :
  forall env w e w',
    checkConfig env w = (Thrown e, w') ->
    (new_events w w' = [] /\
     (env_readDir env (steps w) = Fails e \/
      env_vscu_raw env (S (steps w)) = VscuUnreadable e)) \/
    new_events w w' = [config_error_log e].
Proof.
  intros env w e w' H. pose proof (checkConfig_cases env w) as C.
  destruct (env_readDir env (steps w)) as [files | e0].
  2: { rewrite C in H. inversion H; subst. left. split; auto.
       unfold new_events; simpl. apply skipn_all. }
  destruct (lists_vscu files); [|rewrite C in H; discriminate].
  destruct (env_vscu_raw env (S (steps w))) as [e0 | e0 | d i].
  - rewrite C in H. inversion H; subst. left. split; auto.
    unfold new_events; simpl. apply skipn_all.
  - rewrite C in H. inversion H; subst. right.
    apply new_events_app. reflexivity.
  - destruct C as [[_ C] | [_ [e0 C]]]; rewrite C in H; [discriminate|].
    inversion H; subst. right. apply new_events_app. reflexivity.
Qed.

(** The directory holds a valid vscu.json. *)
Definition env_tidy : Env :=
  sample_env (fun _ => 1000) sample_config "1.94.0" (net_release "1.95.0")
             no_tasks.

(** The same directory with a file whose [interval] is 0. *)
Definition env_interval_zero : Env :=
  mkEnv (fun _ => 1000)
        (fun _ => Gives (mkConfig "C:\VSCode" 0 None))
        (fun _ => Gives [mkDirEntry true "vscu.json"])
        (fun _ => VscuParsed (JStr "C:\VSCode") (JNum (Num 0)))
        (fun _ => Found)
        (fun _ => Gives (Some "1.94.0"))
        (net_release "1.95.0")
        (fun _ => Gives tt) (fun _ => Gives tt) (fun _ => Gives tt)
        (fun _ => Gives no_tasks)
        (fun _ => Gives tt)
        (fun path => path) "C:\Temp" false
        (fun msg => "Error: " ++ msg).

Lemma checkConfig_error_logged_witness :
  checkConfig env_interval_zero initial_world
  = (Thrown (mkError "Invalid configuration: 'interval' must be a number."
               "Error: Invalid configuration: 'interval' must be a number."),
     snd (checkConfig env_interval_zero initial_world)) /\
  new_events initial_world (snd (checkConfig env_interval_zero initial_world))
  = [EvLog LError
       "Error in configuration file: Invalid configuration: 'interval' must be a number."].
Proof.
  assert (H : checkConfig env_interval_zero initial_world
              = (Thrown (mkError
                           "Invalid configuration: 'interval' must be a number."
                           "Error: Invalid configuration: 'interval' must be a number."),
                 snd (checkConfig env_interval_zero initial_world)))
    by (vm_compute; reflexivity).
  split; [exact H|].
  destruct (checkConfig_error_logged _ _ _ _ H) as [[N _] | L].
  - vm_compute in N. discriminate N.
  - exact L.
Defined.

(** ** The cache of the configuration (config.ts, readConfig) *)

(** A read less than 1000 ms after the configuration was last loaded gives
    the cached configuration: only the clock is read. *)
Lemma readConfig_hit env w c :
  lastConfig w = Some c ->
  env_now env (steps w) - lastConfigTime w < 1000 ->
  readConfig env w = (Ok c, tick w).
Proof.
  intros L F. unfold readConfig. rewrite try_rethrow.
  unfold bind, gets, Date_now, ask, ret. rewrite L. cbn [fst snd].
  change (lastConfigTime (tick w)) with (lastConfigTime w).
  destruct (Z.ltb_spec (env_now env (steps w) - lastConfigTime w) 1000);
    [reflexivity | lia].
Qed.

(** The configuration that [readConfig] returns is the one the cache holds
    afterwards. *)
Lemma readConfig_caches env w c w' :
  readConfig env w = (Ok c, w') -> lastConfig w' = Some c.
Proof.
  intros H. unfold readConfig in H. rewrite try_rethrow in H.
  unfold bind, gets, Date_now, ask, answer, modify, ret in H.
  destruct (lastConfig w) as [c0|] eqn:L; cbn [fst snd] in H.
  - destruct (env_now env (steps w) - lastConfigTime (tick w) <? 1000).
    + inversion H; subst. exact L.
    + destruct (env_vscu env (steps (tick w))); inversion H; subst.
      reflexivity.
  - destruct (env_vscu env (steps w)); inversion H; subst. reflexivity.
Qed.

(** X4. A configuration that [readConfig] has returned is returned again by a
    read made less than 1000 ms after the time the cache records: that read
    asks the clock and nothing else, so the file is not read and a change
    made to it in between is not seen; the cache is left as it is. *)
Theorem readConfig_cache_hit :
  forall env w c w1,
    readConfig env w = (Ok c, w1) ->
    env_now env (steps w1) - lastConfigTime w1 < 1000 ->
    readConfig env w1 = (Ok c, tick w1).
Proof.
  intros env w c w1 H F. apply readConfig_hit; [|exact F].
  eapply readConfig_caches; eauto.
Qed.

(** The file holds a token when it is first read, and none afterwards. *)
Definition env_edited : Env :=
  mkEnv (fun _ => 1000)
        (fun n => if (n <? 1)%nat then Gives sample_config_token
                  else Gives sample_config)
        (fun _ => Gives [mkDirEntry true "vscu.json"])
        (fun _ => VscuParsed (JStr "C:\VSCode") (JNum (Num 1800000)))
        (fun _ => Found)
        (fun _ => Gives (Some "1.94.0"))
        (net_release "1.95.0")
        (fun _ => Gives tt) (fun _ => Gives tt) (fun _ => Gives tt)
        (fun _ => Gives no_tasks)
        (fun _ => Gives tt)
        (fun path => path) "C:\Temp" false
        (fun msg => "Error: " ++ msg).

Lemma readConfig_cache_hit_witness :
  let w1 := snd (readConfig env_edited initial_world) in
  readConfig env_edited initial_world = (Ok sample_config_token, w1) /\
  env_now env_edited (steps w1) - lastConfigTime w1 < 1000 /\
  env_vscu env_edited (steps w1) = Gives sample_config /\
  readConfig env_edited w1 = (Ok sample_config_token, tick w1).
Proof.
  intros w1.
  assert (H : readConfig env_edited initial_world
              = (Ok sample_config_token, w1)) by (vm_compute; reflexivity).
  assert (F : env_now env_edited (steps w1) - lastConfigTime w1 < 1000)
    by (vm_compute; reflexivity).
  split; [exact H|]. split; [exact F|]. split; [reflexivity|].
  exact (readConfig_cache_hit env_edited initial_world sample_config_token w1
           H F).
Defined.

(** X5. Without a cached configuration, or 1000 ms or more after it was
    loaded, the file is read: what it gives is returned and cached, with
    the time read after the load; when reading or parsing throws, the error
    is thrown and the cache is left as it was. *)
Theorem readConfig_cache_miss :
  forall env w,
    (lastConfig w = None \/
     1000 <= env_now env (steps w) - lastConfigTime w) ->
    let k := match lastConfig w with
             | Some _ => S (steps w)
             | None => steps w
             end in
    match env_vscu env k with
    | Gives c =>
        fst (readConfig env w) = Ok c /\
        lastConfig (snd (readConfig env w)) = Some c /\
        lastConfigTime (snd (readConfig env w)) = env_now env (S k)
    | Fails e =>
        fst (readConfig env w) = Thrown e /\
        lastConfig (snd (readConfig env w)) = lastConfig w /\
        lastConfigTime (snd (readConfig env w)) = lastConfigTime w
    end.
Proof.
  intros env w M k. subst k. unfold readConfig. rewrite try_rethrow.
  unfold bind, gets, Date_now, ask, answer, modify, ret.
  destruct (lastConfig w) as [c0|] eqn:L; cbn [fst snd].
  - destruct M as [M | M]; [discriminate|].
    change (lastConfigTime (tick w)) with (lastConfigTime w).
    destruct (Z.ltb_spec (env_now env (steps w) - lastConfigTime w) 1000);
      [lia|].
    change (steps (tick w)) with (S (steps w)).
    destruct (env_vscu env (S (steps w))); cbn; auto.
  - destruct (env_vscu env (steps w)); cbn; auto.
Qed.

Lemma readConfig_cache_miss_witness :
  let w := mkWorld 7 [] (Num 100) "" 0 (Some sample_config_token) 0 in
  1000 <= env_now env_tidy (steps w) - lastConfigTime w /\
  fst (readConfig env_tidy w) = Ok sample_config /\
  lastConfig (snd (readConfig env_tidy w)) = Some sample_config.
Proof.
  intros w.
  assert (M : 1000 <= env_now env_tidy (steps w) - lastConfigTime w)
    by (vm_compute; discriminate).
  split; [exact M|].
  pose proof (readConfig_cache_miss env_tidy w (or_intror M)) as H.
  cbv zeta in H.
  change (env_vscu env_tidy
            match lastConfig w with
            | Some _ => S (steps w)
            | None => steps w
            end) with (@Gives ConfigData sample_config) in H.
  destruct H as (R & C & _). split; [exact R | exact C].
Defined.

(** X6. The interval that the [Config] getter gives is never 0: it is the
    interval of the configuration now cached, or 30 minutes when that one
    is 0. *)
Theorem config_interval_never_zero :
  forall env w i w',
    config_interval env w = (Ok i, w') ->
    i <> 0 /\
    exists c, lastConfig w' = Some c /\
              i = (if interval c =? 0 then 1800000 else interval c).
Proof.
  intros env w i w' H. unfold config_interval, bind in H.
  destruct (readConfig env w) as [[c | e |] w1] eqn:R; try discriminate.
  pose proof (readConfig_caches env w c w1 R) as L.
  destruct (Z.eqb_spec (interval c) 0) as [Z0 | NZ];
    inversion H; subst.
  - split; [discriminate|]. exists c. rewrite Z0. auto.
  - split; [exact NZ|]. exists c. split; auto.
    destruct (Z.eqb_spec (interval c) 0); [contradiction | reflexivity].
Qed.

Lemma config_interval_never_zero_witness :
  config_interval env_interval_zero initial_world
  = (Ok 1800000, snd (config_interval env_interval_zero initial_world)) /\
  1800000 <> 0.
Proof.
  assert (H : config_interval env_interval_zero initial_world
              = (Ok 1800000,
                 snd (config_interval env_interval_zero initial_world)))
    by (vm_compute; reflexivity).
  split; [exact H|].
  exact (proj1 (config_interval_never_zero _ _ _ _ H)).
Defined.

(** ** The pace of notifications (utils.ts, notify) *)

(** X7. A notification whose message differs from the last one is shown after a
    wait: 100 ms when none was shown before ([lastTime] is 0), and
    otherwise 1100 ms less the time since the last one was shown. The time
    read after showing becomes [lastTime]. *)
Theorem notify_wait :
  forall env title msg w,
    lastMessage w <> msg ->
    let w' := snd (notify env title msg w) in
    let wait := if lastTime w =? 0 then 100
                else 1000 - (env_now env (steps w) - lastTime w) + 100 in
    let shown_at := if lastTime w =? 0 then env_now env (steps w)
                    else env_now env (S (steps w)) in
    new_events w w' = [EvNotifyDelay wait; EvShow title msg] /\
    lastMessage w' = msg /\
    lastTime w' = shown_at.
Proof.
  intros env title msg w N w' wait shown_at. subst w' wait shown_at.
  unfold notify, bind, emit, modify, gets, Date_now, ask, ret.
  destruct (String.eqb_spec (lastMessage w) msg) as [E | _];
    [contradiction|].
  cbn -[Z.add Z.sub Z.eqb].
  destruct (lastTime w =? 0) eqn:LT; cbn -[Z.add Z.sub Z.eqb].
  - apply Z.eqb_eq in LT. rewrite LT. split; [|auto].
    apply new_events_app. cbn. rewrite <- app_assoc. reflexivity.
  - split; [|auto].
    apply new_events_app. cbn -[Z.add Z.sub]. rewrite <- app_assoc.
    reflexivity.
Qed.

Lemma notify_wait_witness :
  let w := mkWorld 3 [] (Num 100) "Update available!" 600 None 0 in
  lastMessage w <> busy_notice /\
  new_events w (snd (notify env_tidy "Vscode Updater" busy_notice w))
  = [EvNotifyDelay 700; EvShow "Vscode Updater" busy_notice].
Proof.
  intros w.
  assert (N : lastMessage w <> busy_notice) by discriminate.
  split; [exact N|].
  exact (proj1 (notify_wait env_tidy "Vscode Updater" busy_notice w N)).
Defined.

(** ** Leaving the process (utils.ts, exit) *)

(** X8. [exit] never returns. It shows the error notice only when it is given
    a non-empty message that is not the last one shown, then tries to clear
    the run marker; when that write succeeds it closes the log and exits,
    and when it throws, [exit] throws the same error without exiting. *)
Theorem exit_clears_run_marker :
  forall env msg w,
    let r := exit env msg w in
    exists shown,
      exit_notice msg w shown /\
      ((fst r = Exited /\
        new_events w (snd r)
        = (shown ++ [EvSetRun false; EvCloseLog; EvExit])%list)
       \/
       ((exists e k, fst r = Thrown e /\ env_setRun env k = Fails e) /\
        new_events w (snd r) = (shown ++ [EvSetRun false])%list)).
Proof.
  intros env msg w r. subst r.
  destruct (exit_spec env msg w) as (shown & C & [[R T] | [R T]]);
    exists shown; (split; [exact C|]); [left | right];
    (split; [exact R|]); apply new_events_app; exact T.
Qed.

(** ** The test that Code.exe runs (updater.ts, isProcessRunning) *)

Lemma prefix_nil s : prefix "" s = true.
Proof. destruct s; reflexivity. Qed.

Lemma prefix_cons a s1 b s2 :
  prefix (String a s1) (String b s2)
  = if ascii_dec a b then prefix s1 s2 else false.
Proof. reflexivity. Qed.

Lemma prefix_append n s : prefix n s = true <-> exists b, s = n ++ b.
Proof.
  revert s. induction n as [|a n IH]; intros s.
  - rewrite prefix_nil. split; auto. intros _. exists s. reflexivity.
  - destruct s as [|c s].
    + split; [discriminate|]. intros [b E]. discriminate.
    + rewrite prefix_cons. destruct (ascii_dec a c) as [-> | N].
      * rewrite IH. split; intros [b E]; exists b.
        -- simpl. rewrite E. reflexivity.
        -- simpl in E. inversion E. reflexivity.
      * split; [discriminate|]. intros [b E]. simpl in E.
        inversion E. congruence.
Qed.

Lemma index_found n s :
  (exists k, String.index 0 n s = Some k) <-> exists a b, s = a ++ n ++ b.
Proof.
  induction s as [|c s IH].
  - simpl. destruct n as [|a n].
    + split; eauto. intros _. exists "", "". reflexivity.
    + split; [intros [k E]; discriminate|].
      intros (a' & b & E). destruct a'; discriminate.
  - cbn [String.index].
    destruct (prefix n (String c s)) eqn:P.
    + split; [|eauto]. intros _. apply prefix_append in P.
      destruct P as [b E]. exists "", b. exact E.
    + split.
      * intros [k E]. destruct (String.index 0 n s) as [m|]; [|discriminate].
        destruct (proj1 IH (ex_intro _ m eq_refl)) as (a & b & E').
        exists (String c a), b. simpl. rewrite E'. reflexivity.
      * intros (a & b & E). destruct a as [|c' a].
        -- assert (P' : prefix n (String c s) = true)
             by (apply prefix_append; exists b; exact E).
           congruence.
        -- simpl in E. inversion E; subst.
           destruct (proj2 IH (ex_intro _ a (ex_intro _ b eq_refl)))
             as [m M].
           rewrite M. eauto.
Qed.

(** [includes] is the test that the needle occurs in the haystack. *)
Lemma includes_spec s n :
  includes s n = true <-> exists a b, s = a ++ n ++ b.
Proof.
  unfold includes. rewrite <- index_found.
  destruct (String.index 0 n s) as [k|].
  - split; eauto.
  - split; [discriminate|]. intros [k E]. discriminate.
Qed.

(** X9. [isProcessRunning] runs tasklist with the filter on the image name
    and nothing else. It answers true exactly when the output of the
    command contains the name somewhere, false when it does not, and it
    throws what running the command throws. *)
Theorem isProcessRunning_result :
  forall env p w,
    let r := isProcessRunning env p w in
    new_events w (snd r)
    = [EvCommand "tasklist" ["/FI"; "IMAGENAME eq " ++ p]] /\
    (fst r = Ok true <->
     exists a b, env_tasklist env (steps w) = Gives (a ++ p ++ b)) /\
    (fst r = Ok false <->
     exists out, env_tasklist env (steps w) = Gives out /\
                 ~ exists a b, out = a ++ p ++ b) /\
    (forall e, fst r = Thrown e <-> env_tasklist env (steps w) = Fails e).
Proof.
  intros env p w r. subst r. unfold isProcessRunning.
  rewrite try_rethrow. unfold bind, emit, modify, answer, ret.
  cbn [fst snd].
  change (steps (add_event (EvCommand "tasklist" ["/FI"; "IMAGENAME eq " ++ p])
                   w)) with (steps w).
  destruct (env_tasklist env (steps w)) as [out | e0]; cbn [fst snd].
  - split; [apply new_events_app; reflexivity|].
    pose proof (includes_spec out p) as I.
    destruct (includes out p).
    + split; [|split].
      * split; auto. intros _. destruct (proj1 I eq_refl) as (a & b & E).
        exists a, b. congruence.
      * split; [discriminate|]. intros (o & E & N). inversion E; subst.
        exfalso. apply N. apply I. reflexivity.
      * intros e. split; discriminate.
    + split; [|split].
      * split; [discriminate|]. intros (a & b & E). inversion E; subst.
        assert (X : false = true) by (apply I; eauto). discriminate X.
      * split; auto. intros _. exists out. split; auto.
        intros H. apply I in H. discriminate.
      * intros e. split; discriminate.
  - split; [apply new_events_app; reflexivity|].
    split; [|split].
    + split; [discriminate|]. intros (a & b & E). discriminate.
    + split; [discriminate|]. intros (o & E & _). discriminate.
    + intros e. split; congruence.
Qed.

(** ** A cycle without a manifest (updater.ts, getLocalVersion, run) *)

Definition manifest_notice : string :=
  "Unable to find the local version, please check the path in the configuration file.".

(** X10. When the manifest is not found under the install directory, the cycle
    returns normally after asking for the notice about the local version
    (shown unless it repeats the last message): no request is made, nothing
    is downloaded or written, and the release API is not queried. *)
Theorem missing_manifest_skips_cycle :
  forall env w d w1,
    config_dir env w = (Ok d, w1) ->
    env_stat env (steps w1) = NotFound ->
    let r := run env w in
    fst r = Ok tt /\
    lastMessage (snd r) = manifest_notice /\
    ((lastMessage w = manifest_notice /\ new_events w (snd r) = []) \/
     (lastMessage w <> manifest_notice /\
      exists ms,
        new_events w (snd r)
        = [EvNotifyDelay ms; EvShow "Vscode Updater Error" manifest_notice])).
Proof.
  intros env w d w1 C S r. subst r.
  pose proof (config_dir_obeys env fp_silent eq_refl w) as [S1 _].
  rewrite C in S1. simpl in S1.
  pose proof (step_rel_trace fp_silent _ _ (fun _ => eq_refl) S1) as T1.
  pose proof (step_rel_lastMessage fp_silent _ _ eq_refl S1) as L1.
  destruct (notify_spec env "Vscode Updater Error" manifest_notice (tick w1))
    as (w2 & shown & E & Tr & L2 & _ & Cases).
  enough (H : sat (run env) w (fun r w' => r = Ok tt /\ w' = w2)).
  { destruct H as [R W]. rewrite R, W. split; [reflexivity|].
    split; [exact L2|].
    change (trace (tick w1)) with (trace w1) in Tr. rewrite T1 in Tr.
    rewrite (new_events_app _ _ _ Tr).
    change (lastMessage (tick w1)) with (lastMessage w1) in Cases.
    rewrite L1 in Cases.
    destruct Cases as [(A & B & _) | (A & B)]; [left | right]; auto. }
  unfold run. apply sat_try_rethrow. apply sat_bind.
  unfold checkUpdate. apply sat_try_rethrow. apply sat_bind.
  unfold getLocalVersion. apply sat_try_rethrow. apply sat_bind.
  eapply sat_eq; [exact C|]. cbv zeta.
  apply sat_bind. unfold exists_. apply sat_bind.
  unfold sat at 1, ask. cbn [fst snd]. rewrite S.
  apply sat_ret. apply sat_bind. eapply sat_eq; [exact E|].
  apply sat_ret, sat_ret, sat_ret. auto.
Qed.

(** The install directory has no manifest. *)
Definition env_no_manifest : Env :=
  mkEnv (fun _ => 1000)
        (fun _ => Gives sample_config)
        (fun _ => Gives [mkDirEntry true "vscu.json"])
        (fun _ => VscuParsed (JStr "C:\VSCode") (JNum (Num 1800000)))
        (fun _ => NotFound)
        (fun _ => Fails (mkError "No such file or directory" ""))
        (net_release "1.95.0")
        (fun _ => Gives tt) (fun _ => Gives tt) (fun _ => Gives tt)
        (fun _ => Gives no_tasks)
        (fun _ => Gives tt)
        (fun path => path) "C:\Temp" false
        (fun msg => "Error: " ++ msg).

Lemma missing_manifest_skips_cycle_witness :
  let w1 := snd (config_dir env_no_manifest initial_world) in
  config_dir env_no_manifest initial_world = (Ok "C:\VSCode", w1) /\
  env_stat env_no_manifest (steps w1) = NotFound /\
  fst (run env_no_manifest initial_world) = Ok tt /\
  lastMessage (snd (run env_no_manifest initial_world)) = manifest_notice.
Proof.
  intros w1.
  assert (C : config_dir env_no_manifest initial_world = (Ok "C:\VSCode", w1))
    by (vm_compute; reflexivity).
  assert (S : env_stat env_no_manifest (steps w1) = NotFound) by reflexivity.
  split; [exact C|]. split; [exact S|].
  destruct (missing_manifest_skips_cycle env_no_manifest initial_world
              "C:\VSCode" w1 C S) as (R & L & _).
  split; [exact R | exact L].
Defined.

(** ** What one query may do (updater.ts, getLatestVersion) *)

(** X11. A call of [getLatestVersion] makes at most one request, a bare GET of
    the release API, and leaves the notification state alone. A release is
    only returned after that request, with a non-empty version and with
    [reset] unchanged; and [reset] is only assigned by a call that made the
    request and returns null. *)
Theorem getLatestVersion_effects :
  forall env w,
    let r := getLatestVersion env w in
    let rq := requests (new_events w (snd r)) in
    (rq = [] \/ rq = [(api_uri, [])]) /\
    lastMessage (snd r) = lastMessage w /\
    lastTime (snd r) = lastTime w /\
    (forall v, fst r = Ok (Some v) ->
               version v <> "" /\ reset (snd r) = reset w /\
               rq = [(api_uri, [])]) /\
    (reset (snd r) <> reset w -> fst r = Ok None /\ rq = [(api_uri, [])]).
Proof.
  intros env w r rq. subst r rq.
  assert (O : obeys fp_query (getLatestVersion env))
    by (apply getLatestVersion_obeys; reflexivity).
  destruct (O w) as [(_ & _ & _ & N) _]. destruct (N eq_refl) as [LM LT].
  destruct (num_gt (reset w) 100) eqn:L.
  { rewrite (getLatestVersion_limited env w L). cbn [fst snd].
    unfold new_events. rewrite skipn_all. simpl.
    split; [auto|]. split; [auto|]. split; [auto|].
    split; [discriminate | congruence]. }
  pose proof (getLatestVersion_query env w L) as Q. unfold sat in Q.
  pose proof (fun l => requests_new_events (getLatestVersion env) fp_query w l
                         O) as RN.
  pose proof (release_version_truthy env w) as TV.
  destruct (getLatestVersion env w) as [[v | e |] w'] eqn:E;
    cbn [fst snd] in *.
  - destruct Q as (k & res & data & _ & _ & _ & RQ & T).
    rewrite (RN _ RQ).
    split; [auto|]. split; [exact LM|]. split; [exact LT|].
    destruct (truthy_value (tag_name data)).
    + destruct T as [-> R]. split.
      * intros v H. inversion H; subst. split; [apply TV; reflexivity|].
        auto.
      * congruence.
    + destruct T as [-> _]. split; [discriminate | auto].
  - destruct Q as [R [[RQ _] | [RQ _]]].
    + rewrite <- (app_nil_r (requests (trace w))) in RQ. rewrite (RN _ RQ).
      split; [auto|]. split; [exact LM|]. split; [exact LT|].
      split; [discriminate | congruence].
    + rewrite (RN _ RQ).
      split; [auto|]. split; [exact LM|]. split; [exact LT|].
      split; [discriminate | congruence].
  - destruct Q.
Qed.

(** ** The value that a reply without a release leaves in [reset] *)

(** X12. When a query that is not short-circuited returns null, the release
    API has given a reply without a truthy [tag_name], and [reset] is
    assigned from the [x-ratelimit-reset] header of that reply and the
    clock read after it (clock readings being time values, between 0 and
    [max_time]). A header of whole seconds whose milliseconds are a time
    value gives the difference of the two, and later queries are blocked
    exactly when it exceeds 100. Without the header [reset] is minus the
    clock, and with a header that is not a number it is NaN: neither ever
    blocks a query. *)
Theorem reset_after_reply :
  forall env w w',
    (forall n, 0 <= env_now env n <= max_time) ->
    num_gt (reset w) 100 = false ->
    getLatestVersion env w = (Ok None, w') ->
    exists k res data,
      (steps w <= k)%nat /\
      env_fetch env k api_uri = Gives res /\
      json res = Gives data /\
      truthy_value (tag_name data) = None /\
      let now := env_now env (S k) in
      match x_ratelimit_reset res with
      | HSeconds z =>
          0 <= z * 1000 <= max_time ->
          reset w' = Num (z * 1000 - now) /\
          num_gt (reset w') 100 = (z * 1000 - now >? 100)
      | HAbsent => reset w' = Num (- now) /\ num_gt (reset w') 100 = false
      | HNotNumeric => reset w' = NaN /\ num_gt (reset w') 100 = false
      end.
Proof.
  intros env w w' B L H.
  enough (Q : sat (getLatestVersion env) w
                (fun r w' =>
                   r = Ok None ->
                   exists k res data,
                     (steps w <= k)%nat /\
                     env_fetch env k api_uri = Gives res /\
                     json res = Gives data /\
                     truthy_value (tag_name data) = None /\
                     reset w'
                     = num_scale_sub (Number (x_ratelimit_reset res)) 1000
                         (env_now env (S k)))).
  { unfold sat in Q. rewrite H in Q. cbn [fst snd] in Q.
    destruct (Q eq_refl) as (k & res & data & K & F & J & T & R).
    exists k, res, data. repeat (split; [assumption|]).
    cbv zeta. rewrite R. pose proof (B (S k)) as [B0 _].
    destruct (x_ratelimit_reset res) as [| z |]; cbn [Number num_scale_sub].
    - split; [reflexivity|]. cbn [num_gt].
      destruct (Z.gtb_spec (0 * 1000 - env_now env (S k)) 100); [lia|].
      reflexivity.
    - intros _. split; reflexivity.
    - split; reflexivity. }
  clear H. unfold getLatestVersion.
  apply sat_bind, sat_gets. rewrite L.
  apply sat_try_rethrow.
  apply sat_bind. eapply sat_mono; [apply request_headers_spec|].
  intros [hdrs | e |] w1 [S1 C1]; [| discriminate | destruct C1].
  pose proof (step_rel_steps _ _ _ S1) as N1.
  cbv zeta. unfold fetch.
  apply sat_bind, sat_bind, sat_emit.
  unfold sat at 1. unfold answer.
  change (steps (add_event (EvFetch api_uri []) w1)) with (steps w1).
  destruct (env_fetch env (steps w1) api_uri) as [res | e] eqn:E;
    cbn [fst snd]; [|discriminate].
  apply sat_bind. destruct (json res) as [data | e] eqn:J;
    [|simpl; discriminate].
  apply sat_ret. apply sat_bind.
  unfold console_debug, when.
  destruct (env_debug env).
  - apply sat_emit.
    destruct (truthy_value (tag_name data)) as [tag|] eqn:TV;
      [apply sat_ret; discriminate|].
    apply sat_bind.
    destruct (opt_truthy (api_message data)).
    + unfold console_error. apply sat_emit. apply sat_bind.
      unfold sat at 1, Date_now, ask. cbn [fst snd].
      apply sat_bind, sat_modify, sat_ret. intros _.
      exists (steps w1), res, data. repeat (split; [assumption|]).
      reflexivity.
    + apply sat_ret. apply sat_bind.
      unfold sat at 1, Date_now, ask. cbn [fst snd].
      apply sat_bind, sat_modify, sat_ret. intros _.
      exists (steps w1), res, data. repeat (split; [assumption|]).
      reflexivity.
  - apply sat_ret.
    destruct (truthy_value (tag_name data)) as [tag|] eqn:TV;
      [apply sat_ret; discriminate|].
    apply sat_bind.
    destruct (opt_truthy (api_message data)).
    + unfold console_error. apply sat_emit. apply sat_bind.
      unfold sat at 1, Date_now, ask. cbn [fst snd].
      apply sat_bind, sat_modify, sat_ret. intros _.
      exists (steps w1), res, data. repeat (split; [assumption|]).
      reflexivity.
    + apply sat_ret. apply sat_bind.
      unfold sat at 1, Date_now, ask. cbn [fst snd].
      apply sat_bind, sat_modify, sat_ret. intros _.
      exists (steps w1), res, data. repeat (split; [assumption|]).
      reflexivity.
Qed.

Lemma reset_after_reply_witness :
  let w' := snd (getLatestVersion env_limit_met_later initial_world) in
  (forall n, 0 <= env_now env_limit_met_later n <= max_time) /\
  num_gt (reset initial_world) 100 = false /\
  getLatestVersion env_limit_met_later initial_world = (Ok None, w') /\
  0 <= 5001 * 1000 <= max_time /\
  reset w' = Num (5001 * 1000 - 1000) /\
  num_gt (reset w') 100 = true.
Proof.
  intros w'.
  assert (B : forall n, 0 <= env_now env_limit_met_later n <= max_time)
    by (intros n; cbn; unfold max_time; lia).
  assert (L : num_gt (reset initial_world) 100 = false) by reflexivity.
  assert (H : getLatestVersion env_limit_met_later initial_world
              = (Ok None, w')) by (vm_compute; reflexivity).
  assert (Z5 : 0 <= 5001 * 1000 <= max_time) by (unfold max_time; lia).
  split; [exact B|]. split; [exact L|]. split; [exact H|].
  split; [exact Z5|].
  destruct (reset_after_reply env_limit_met_later initial_world w' B L H)
    as (k & res & data & _ & F & _ & _ & G).
  assert (E : res = throttled_response 5001).
  { cbn in F. inversion F. reflexivity. }
  rewrite E in G. cbn [x_ratelimit_reset throttled_response] in G.
  destruct (G Z5) as [R N]. split; [exact R|].
  rewrite N. reflexivity.
Defined.

(** ** The order of the steps of an update (updater.ts, updateProcess) *)

(** What [downloadLatest] does, case by case: the request, and the write
    of the archive only after a response that is ok and whose body could be
    read. *)
Lemma downloadLatest_cases env v w :
  sat (downloadLatest env v) w
      (fun r w' =>
         (exists body,
             r = Ok (archive_path env v) /\
             trace w'
             = (trace w ++ [EvFetch (download_url v) [];
                            EvWriteFile (archive_path env v) body])%list)
         \/
         ((exists e, r = Thrown e) /\
          (trace w' = (trace w ++ [EvFetch (download_url v) []])%list \/
           exists body,
             trace w'
             = (trace w ++ [EvFetch (download_url v) [];
                            EvWriteFile (archive_path env v) body])%list))).
Proof.
  unfold downloadLatest. cbv zeta. apply sat_try_rethrow.
  unfold fetch. apply sat_bind, sat_bind, sat_emit.
  unfold sat at 1, answer.
  destruct (env_fetch env (steps (add_event (EvFetch (download_url v) []) w))
              (download_url v)) as [res | e]; cbn [fst snd].
  2: { right. split; [eauto|]. left. reflexivity. }
  destruct (ok res); cbn [negb].
  2: { unfold sat, throw; cbn [fst snd].
       right. split; [eauto|]. left. reflexivity. }
  apply sat_bind. destruct (arrayBuffer res) as [body | e].
  2: { unfold sat, lift, throw; cbn [fst snd].
       right. split; [eexists; reflexivity|]. left. reflexivity. }
  apply sat_ret. unfold writeFileSync. apply sat_bind, sat_bind, sat_emit.
  unfold sat at 1, answer.
  destruct (env_write env _); cbn [fst snd].
  - apply sat_ret. left. exists body. split; [reflexivity|].
    simpl. rewrite <- app_assoc. reflexivity.
  - right. split; [eauto|]. right. exists body.
    simpl. rewrite <- app_assoc. reflexivity.
Qed.

(** The steps of a whole update for the release [tag]. *)
Definition update_steps (env : Env) (tag : string) (body : list Byte.byte)
    (d : string) : list Event :=
  [EvFetch (download_url tag) [];
   EvWriteFile (archive_path env tag) body;
   EvDecompress (archive_path env tag) d;
   EvRemove (archive_path env tag)].

(** The steps made since [w0] are the first steps of one update, and all
    of them or none when the call returned. *)
Definition in_order (env : Env) (w0 : World) (r : Outcome unit) (w' : World)
  : Prop :=
  exists tag body d made,
    updates (trace w') = (updates (trace w0) ++ made)%list /\
    (exists rest, update_steps env tag body d = (made ++ rest)%list) /\
    (r = Ok tt -> made = [] \/ made = update_steps env tag body d).

Lemma in_order_none env w0 r w' :
  updates (trace w') = updates (trace w0) -> in_order env w0 r w'.
Proof.
  intros U. exists "", [], "", []. rewrite app_nil_r.
  split; [exact U|]. split; [eexists; reflexivity | auto].
Qed.

Lemma updates_steps env tag body d k :
  updates (firstn k (update_steps env tag body d))
  = firstn k (update_steps env tag body d).
Proof.
  unfold update_steps, updates.
  destruct k as [|[|[|[|k]]]]; cbn [firstn filter is_update];
    rewrite ?download_url_not_api; cbn [negb]; rewrite ?firstn_nil;
    reflexivity.
Qed.

Lemma in_order_made env w0 r w w' tag body d k :
  updates (trace w) = updates (trace w0) ->
  trace w' = (trace w ++ firstn k (update_steps env tag body d))%list ->
  (r = Ok tt -> (4 <= k)%nat) ->
  in_order env w0 r w'.
Proof.
  intros U T K. exists tag, body, d, (firstn k (update_steps env tag body d)).
  split; [rewrite T, updates_app, updates_steps, U; reflexivity|].
  split.
  - exists (skipn k (update_steps env tag body d)).
    symmetry. apply firstn_skipn.
  - intros R. right. specialize (K R).
    apply firstn_all2. simpl. exact K.
Qed.

Lemma updateProcess_in_order env w0 w :
  updates (trace w) = updates (trace w0) ->
  sat (updateProcess env) w (in_order env w0).
Proof.
  intros U. unfold updateProcess. apply sat_try_rethrow.
  apply sat_bind.
  apply (sat_obeys fp_check); [apply checkUpdate_obeys; reflexivity|].
  intros r w1 S1 _.
  pose proof (step_rel_updates fp_check _ _ fp_check_no_update S1) as U1.
  rewrite U in U1.
  destruct r as [[|] | e |]; try (apply in_order_none; exact U1).
  cbn [negb].
  apply sat_bind.
  apply (sat_obeys fp_check); [apply getLatestVersion_obeys; reflexivity|].
  intros r w2 S2 _.
  pose proof (step_rel_updates fp_check _ _ fp_check_no_update S2) as U2.
  rewrite U1 in U2.
  destruct r as [[latest|] | e |]; try (apply in_order_none; exact U2).
  apply sat_bind.
  apply (sat_obeys fp_log_only); [apply console_debug_obeys; reflexivity|].
  intros r w3 S3 O3.
  pose proof (step_rel_updates fp_log_only _ _ fp_log_only_no_update S3)
    as U3.
  rewrite U2 in U3.
  destruct r as [[] | e |]; try (apply in_order_none; exact U3).
  apply sat_bind. eapply sat_mono; [apply downloadLatest_cases|].
  intros r w4 [(body & -> & T4) | ((e & ->) & [T4 | (body & T4)])].
  2: { apply (in_order_made env w0 _ w3 w4 (version latest) [] "" 1 U3 T4).
       discriminate. }
  2: { apply (in_order_made env w0 _ w3 w4 (version latest) body "" 2 U3 T4).
       discriminate. }
  apply sat_bind.
  apply (sat_obeys fp_silent); [apply config_dir_obeys; reflexivity|].
  intros r w5 S5 _.
  pose proof (step_rel_trace fp_silent _ _ (fun _ => eq_refl) S5) as T5.
  rewrite T4 in T5.
  destruct r as [d | e |].
  2: { apply (in_order_made env w0 _ w3 w5 (version latest) body "" 2 U3 T5).
       discriminate. }
  2: { apply (in_order_made env w0 _ w3 w5 (version latest) body "" 2 U3 T5).
       discriminate. }
  unfold decompress. apply sat_bind, sat_bind, sat_emit.
  unfold sat at 1, answer.
  destruct (env_decompress env _); cbn [fst snd].
  2: { apply (in_order_made env w0 _ w3 _ (version latest) body d 3 U3);
         [|discriminate].
       simpl. rewrite T5, <- app_assoc. reflexivity. }
  unfold removeSync. apply sat_bind, sat_emit.
  unfold sat, answer.
  destruct (env_remove env _); cbn [fst snd].
  - apply (in_order_made env w0 _ w3 _ (version latest) body d 4 U3);
      [|auto].
    simpl. rewrite T5, <- !app_assoc. reflexivity.
  - apply (in_order_made env w0 _ w3 _ (version latest) body d 4 U3);
      [|auto].
    simpl. rewrite T5, <- !app_assoc. reflexivity.
Qed.

(** X13. In every cycle, whatever the outside answers, the steps on the
    installation are the first steps of one update, in its order: the
    download of the archive of one release, the write of the temporary
    archive, its extraction, its removal. So there is at most one download,
    nothing is extracted that was not written, and nothing is removed that
    was not extracted. A cycle that returns normally has made all four
    steps or none. *)
Theorem update_steps_in_order :
  forall env w,
    let r := run env w in
    exists tag body d,
      (exists rest,
          update_steps env tag body d
          = (updates (new_events w (snd r)) ++ rest)%list) /\
      (fst r = Ok tt ->
       updates (new_events w (snd r)) = [] \/
       updates (new_events w (snd r)) = update_steps env tag body d).
Proof.
  intros env w r. subst r.
  enough (H : sat (run env) w (in_order env w)).
  { destruct H as (tag & body & d & made & U & P & K).
    assert (O : obeys fp_any (run env)) by (apply run_obeys; reflexivity).
    rewrite (updates_new_events (run env) fp_any w made O U).
    exists tag, body, d. auto. }
  unfold run. apply sat_try_rethrow.
  apply sat_bind.
  apply (sat_obeys fp_check); [apply checkUpdate_obeys; reflexivity|].
  intros r w1 S1 _.
  pose proof (step_rel_updates fp_check _ _ fp_check_no_update S1) as U1.
  destruct r as [[|] | e |]; try (apply in_order_none; exact U1).
  apply sat_bind.
  apply (sat_obeys fp_command); [apply isProcessRunning_obeys; reflexivity|].
  intros r w2 S2 _.
  pose proof (step_rel_updates fp_command _ _ fp_command_no_update S2) as U2.
  rewrite U1 in U2.
  destruct r as [[|] | e |]; try (apply in_order_none; exact U2);
    cbn [negb].
  - apply (sat_obeys fp_check); [apply notify_obeys; reflexivity|].
    intros r w3 S3 _. apply in_order_none.
    rewrite (step_rel_updates fp_check _ _ fp_check_no_update S3). exact U2.
  - apply sat_bind.
    apply (sat_obeys fp_check); [apply getLatestVersion_obeys; reflexivity|].
    intros r w3 S3 _.
    pose proof (step_rel_updates fp_check _ _ fp_check_no_update S3) as U3.
    rewrite U2 in U3.
    destruct r as [latest | e |]; try (apply in_order_none; exact U3).
    apply sat_bind.
    apply (sat_obeys fp_check).
    { destruct latest; [apply notify_obeys; reflexivity | apply obeys_ret]. }
    intros r w4 S4 _.
    pose proof (step_rel_updates fp_check _ _ fp_check_no_update S4) as U4.
    rewrite U3 in U4.
    destruct r as [[] | e |]; try (apply in_order_none; exact U4).
    apply updateProcess_in_order. exact U4.
Qed.

(** ** What an update costs in requests (updater.ts, run and updateProcess) *)




(** ** The updater under a stored limit *)

(** Log lines, notifications and the waits of the loop; [reset] is kept. *)
Definition fp_idle : Footprint :=
  mkFootprint
    (fun e => match e with
              | EvLog _ _ | EvShow _ _ | EvNotifyDelay _ | EvSleep _ => true
              | _ => false
              end)
    true false true false.

Lemma fp_idle_no_update e : allows fp_idle e = true -> is_update e = false.
Proof. destruct e; simpl; auto; discriminate. Qed.

Lemma step_rel_limited w w' :
  num_gt (reset w) 100 = true -> step_rel fp_idle w w' ->
  num_gt (reset w') 100 = true.
Proof.
  intros L S. rewrite (step_rel_reset fp_idle _ _ eq_refl S). exact L.
Qed.

(** Under a limit [checkUpdate] asks nothing and never reports an
    update. *)
Lemma checkUpdate_limited env w :
  num_gt (reset w) 100 = true ->
  sat (checkUpdate env) w
      (fun r w' =>
         step_rel fp_idle w w' /\ (r = Ok false \/ exists e, r = Thrown e)).
Proof.
  intros L. unfold checkUpdate. apply sat_try_rethrow.
  apply sat_bind.
  apply (sat_obeys fp_idle); [apply getLocalVersion_obeys; reflexivity|].
  intros [[local|] | e |] w1 S1 O1; simpl in O1; try discriminate.
  - apply sat_bind.
    eapply sat_eq.
    { apply getLatestVersion_limited. eapply step_rel_limited; eauto. }
    cbv zeta. apply sat_bind, sat_ret, sat_ret. auto.
  - apply sat_ret. auto.
  - eauto.
Qed.

Lemma run_limited env w :
  num_gt (reset w) 100 = true ->
  sat (run env) w
      (fun r w' =>
         step_rel fp_idle w w' /\ (r = Ok tt \/ exists e, r = Thrown e)).
Proof.
  intros L. unfold run. apply sat_try_rethrow.
  apply sat_bind. eapply sat_mono; [apply checkUpdate_limited; exact L|].
  intros r w1 [S1 [-> | [e ->]]].
  - apply sat_ret. auto.
  - eauto.
Qed.

(** X15. Once a limit is stored ([reset] above 100), a cycle does nothing
    towards an update: it makes no request and no step on the installation,
    does not read the process list, and leaves [reset] as it is, so the
    next cycle finds the same limit. It returns, or throws when the
    configuration or the manifest cannot be read. *)
Theorem limited_cycle_is_idle :
  forall env w,
    num_gt (reset w) 100 = true ->
    let r := run env w in
    (fst r = Ok tt \/ exists e, fst r = Thrown e) /\
    reset (snd r) = reset w /\
    requests (new_events w (snd r)) = [] /\
    updates (new_events w (snd r)) = [] /\
    (forall c a, ~ In (EvCommand c a) (new_events w (snd r))).
Proof.
  intros env w L r. subst r.
  destruct (run_limited env w L) as [S R].
  split; [exact R|].
  split; [apply (step_rel_reset fp_idle); auto|].
  destruct S as (_ & (new & T & P) & _).
  rewrite (new_events_app _ _ _ T).
  split; [apply (allowed_requests fp_idle); auto|].
  split; [apply (allowed_updates fp_idle); auto; apply fp_idle_no_update|].
  intros c a I. rewrite Forall_forall in P. apply P in I. discriminate I.
Qed.

(** The API reports a limit that ends at second 5001; the clock reads
    1000 ms, so one query stores a limit of 5000000 ms. *)
Definition world_limited : World :=
  snd (getLatestVersion env_limit_met_later initial_world).

Lemma limited_cycle_is_idle_witness :
  num_gt (reset world_limited) 100 = true /\
  reset (snd (run env_limit_met_later world_limited)) = reset world_limited /\
  requests (new_events world_limited
              (snd (run env_limit_met_later world_limited))) = [].
Proof.
  assert (L : num_gt (reset world_limited) 100 = true)
    by (vm_compute; reflexivity).
  split; [exact L|].
  destruct (limited_cycle_is_idle env_limit_met_later world_limited L)
    as (_ & R & Q & _).
  split; [exact R | exact Q].
Defined.

Lemma intervalLoop_try_limited env w :
  num_gt (reset w) 100 = true ->
  sat (intervalLoop_try env) w
      (fun r w' =>
         step_rel fp_idle w w' /\ (r = Ok tt \/ exists e, r = Thrown e)).
Proof.
  intros L. unfold intervalLoop_try.
  apply sat_bind, sat_emit. apply sat_bind.
  apply (sat_obeys fp_idle); [apply checkConfig_obeys; reflexivity|].
  intros r w1 S1 O1.
  assert (S1' : step_rel fp_idle w w1).
  { eapply step_rel_trans; [|exact S1].
    apply step_rel_add_event. reflexivity. }
  destruct r as [found | e |]; [| eauto | discriminate O1].
  apply sat_bind.
  apply (sat_obeys fp_idle).
  { apply obeys_when. apply notify_obeys; reflexivity. }
  intros r w2 S2 O2.
  pose proof (step_rel_trans _ _ _ _ S1' S2) as S2'.
  destruct r as [[] | e |]; [| eauto | discriminate O2].
  apply sat_bind, sat_emit. apply sat_bind.
  eapply sat_mono.
  { apply run_limited. apply (step_rel_limited w); [exact L|].
    eapply step_rel_trans; [exact S2'|].
    apply step_rel_add_event. reflexivity. }
  intros r w3 [S3 R3].
  assert (S3' : step_rel fp_idle w w3).
  { eapply step_rel_trans; [exact S2'|].
    eapply step_rel_trans; [|exact S3].
    apply step_rel_add_event. reflexivity. }
  destruct R3 as [-> | [e ->]]; [| eauto].
  apply (sat_obeys fp_idle); [apply notify_obeys; reflexivity|].
  intros r w4 S4 O4.
  split; [eapply step_rel_trans; eauto|].
  destruct r as [[] | e |]; [auto | eauto | discriminate O4].
Qed.

Lemma intervalLoop_turn_limited env d w :
  num_gt (reset w) 100 = true ->
  sat (intervalLoop_turn env d) w
      (fun r w' => step_rel fp_idle w w' /\ r = Ok tt).
Proof.
  intros L. unfold intervalLoop_turn.
  apply sat_bind, sat_emit. apply sat_bind, sat_emit.
  set (w0 := add_event _ (add_event _ w)).
  assert (S0 : step_rel fp_idle w w0).
  { eapply step_rel_trans; apply step_rel_add_event; reflexivity. }
  apply sat_try_catch. eapply sat_mono.
  { apply intervalLoop_try_limited. eapply step_rel_limited; eauto. }
  intros r w1 [S1 [-> | [e ->]]].
  - split; [eapply step_rel_trans; eauto | reflexivity].
  - destruct (intervalLoop_catch_spec env e w1) as (w2 & shown & E & _).
    eapply sat_eq; [exact E|]. split; [|reflexivity].
    eapply step_rel_trans; [exact S0|].
    eapply step_rel_trans; [exact S1|].
    pose proof (intervalLoop_catch_obeys env fp_idle (fun _ _ => eq_refl)
                  (fun _ _ => eq_refl) (fun _ => eq_refl) eq_refl e w1)
      as [S _].
    rewrite E in S. exact S.
Qed.

Lemma intervalLoop_turns_limited env fuel d w :
  num_gt (reset w) 100 = true ->
  sat (intervalLoop_turns env fuel d) w
      (fun r w' => step_rel fp_idle w w' /\ r = Ok tt).
Proof.
  revert w. induction fuel as [|fuel IH]; intros w L; simpl.
  - apply sat_ret. split; [apply step_rel_refl | reflexivity].
  - apply sat_bind. eapply sat_mono; [apply intervalLoop_turn_limited, L|].
    intros r w1 [S1 ->].
    eapply sat_mono; [apply IH; eapply step_rel_limited; eauto|].
    intros r w2 [S2 ->]. split; [eapply step_rel_trans; eauto | reflexivity].
Qed.

(** X16. A limit stored when the loop is entered stays for good: however many
    turns the loop makes, none of them makes a request or a step on the
    installation, and [reset] keeps its value. The updater checks nothing
    any more until it is started again. *)
Theorem limited_loop_never_queries :
  forall env fuel w,
    num_gt (reset w) 100 = true ->
    let r := intervalLoop env fuel w in
    reset (snd r) = reset w /\
    requests (new_events w (snd r)) = [] /\
    updates (new_events w (snd r)) = [].
Proof.
  intros env fuel w L r. subst r.
  assert (H : sat (intervalLoop env fuel) w (fun _ w' => step_rel fp_idle w w')).
  { unfold intervalLoop.
    apply sat_bind.
    apply (sat_obeys fp_idle); [apply config_interval_obeys; reflexivity|].
    intros [c | e |] w1 S1 O1; [| exact S1 | discriminate O1].
    apply sat_bind, sat_gets. cbv zeta.
    apply sat_bind.
    apply (sat_obeys fp_idle); [apply config_interval_obeys; reflexivity|].
    intros [c' | e |] w2 S2 O2;
      [| eapply step_rel_trans; eauto | discriminate O2].
    pose proof (step_rel_trans _ _ _ _ S1 S2) as S2'.
    apply sat_bind.
    apply (sat_obeys fp_idle).
    { apply obeys_when.
      apply obeys_bind; [apply config_interval_obeys; reflexivity|].
      intros c''.
      apply obeys_bind; [apply console_log_obeys; reflexivity|].
      intros _. apply notify_obeys; reflexivity. }
    intros [[] | e |] w3 S3 O3;
      [| eapply step_rel_trans; eauto | discriminate O3].
    pose proof (step_rel_trans _ _ _ _ S2' S3) as S3'.
    eapply sat_mono.
    { apply intervalLoop_turns_limited. eapply step_rel_limited; eauto. }
    intros r w4 [S4 _]. eapply step_rel_trans; eauto. }
  unfold sat in H.
  split; [apply (step_rel_reset fp_idle); auto|].
  destruct H as (_ & (new & T & P) & _).
  rewrite (new_events_app _ _ _ T). split.
  - apply (allowed_requests fp_idle); auto.
  - apply (allowed_updates fp_idle); auto. apply fp_idle_no_update.
Qed.

Lemma limited_loop_never_queries_witness :
  num_gt (reset world_limited) 100 = true /\
  fst (intervalLoop env_limit_met_later 3 world_limited) = Ok tt /\
  sleeps (new_events world_limited
            (snd (intervalLoop env_limit_met_later 3 world_limited)))
  = [5000000; 5000000; 5000000] /\
  requests (new_events world_limited
              (snd (intervalLoop env_limit_met_later 3 world_limited))) = [].
Proof.
  assert (L : num_gt (reset world_limited) 100 = true)
    by (vm_compute; reflexivity).
  split; [exact L|].
  split; [vm_compute; reflexivity|].
  split; [vm_compute; reflexivity|].
  destruct (limited_loop_never_queries env_limit_met_later 3 world_limited L)
    as (_ & Q & _).
  exact Q.
Defined.

(** ** Starting (vscode-updater.ts, start) *)


(** X18. When the working directory can be listed and holds no file vscu.json,
    [start] ends before any cycle: it sets the run marker, logs that it
    checks the configuration, asks for the notice "Configuration file not
    found", clears the run marker, closes the log and exits. Nothing is
    read from the configuration and no request is made. *)
Theorem start_without_config :
  forall env fuel w files,
    (forall n, env_setRun env n = Gives tt) ->
    env_readDir env (S (steps w)) = Gives files ->
    lists_vscu files = false ->
    let r := start env fuel w in
    fst r = Exited /\
    exists shown,
      new_events w (snd r)
      = ([EvSetRun true; EvLog LInfo "Checking configuration file..."] ++
         shown ++ [EvSetRun false; EvCloseLog; EvExit])%list /\
      ((lastMessage w = "Configuration file not found" /\ shown = []) \/
       (lastMessage w <> "Configuration file not found" /\
        exists ms,
          shown = [EvNotifyDelay ms;
                   EvShow "Vscode Updater Error"
                          "Configuration file not found"])).
Proof.
  intros env fuel w files Hs Hd Hl r. subst r.
  enough (K : sat (start env fuel) w
                (fun r w' =>
                   r = Exited /\
                   exists shown,
                     trace w'
                     = (trace w ++
                        [EvSetRun true;
                         EvLog LInfo "Checking configuration file..."] ++
                        shown ++ [EvSetRun false; EvCloseLog; EvExit])%list /\
                     ((lastMessage w = "Configuration file not found" /\
                       shown = []) \/
                      (lastMessage w <> "Configuration file not found" /\
                       exists ms,
                         shown = [EvNotifyDelay ms;
                                  EvShow "Vscode Updater Error"
                                         "Configuration file not found"])))).
  { destruct K as (R & shown & T & C). split; [exact R|].
    exists shown. split; [|exact C]. apply new_events_app. exact T. }
  unfold start. change runned with false. cbn [when].
  apply sat_bind, sat_ret.
  unfold setRun. apply sat_bind, sat_bind, sat_emit.
  unfold sat at 1, answer. rewrite Hs. cbn [fst snd].
  apply sat_bind, sat_try_catch.
  unfold start_try. apply sat_bind, sat_emit. apply sat_bind.
  set (w1 := add_event (EvLog LInfo "Checking configuration file...")
               (tick (add_event (EvSetRun true) w))).
  pose proof (checkConfig_cases env w1) as C.
  change (steps w1) with (S (steps w)) in C. rewrite Hd, Hl in C.
  eapply sat_eq; [exact C|]. cbn [negb when].
  apply sat_bind.
  destruct (exit_spec env (Some "Configuration file not found") (tick w1))
    as (shown & N & X).
  eapply sat_eq; [apply surjective_pairing|].
  destruct X as [[R T] | [(e & k & R & F) T]]; [|rewrite Hs in F; discriminate].
  rewrite R. split; [reflexivity|].
  exists shown. split.
  - rewrite T. subst w1. simpl. rewrite <- !app_assoc. reflexivity.
  - unfold exit_notice in N.
    change (lastMessage (tick w1)) with (lastMessage w) in N.
    cbn [interpolate] in N.
    destruct N as [[[N | N] S] | (_ & N & S)].
    + discriminate N.
    + left. split; [congruence | exact S].
    + right. split; [congruence | exact S].
Qed.

(** A working directory without vscu.json. *)
Definition env_no_config : Env :=
  mkEnv (fun _ => 1000)
        (fun _ => Fails (mkError "No such file: vscu.json" ""))
        (fun _ => Gives [mkDirEntry true "output.log"])
        (fun _ => VscuUnreadable (mkError "No such file: vscu.json" ""))
        (fun _ => NotFound)
        (fun _ => Fails (mkError "No such file: package.json" ""))
        (net_release "1.95.0")
        (fun _ => Gives tt) (fun _ => Gives tt) (fun _ => Gives tt)
        (fun _ => Gives no_tasks)
        (fun _ => Gives tt)
        (fun path => path) "C:\Temp" false
        (fun msg => "Error: " ++ msg).

Lemma start_without_config_witness :
  (forall n, env_setRun env_no_config n = Gives tt) /\
  env_readDir env_no_config (S (steps initial_world))
  = Gives [mkDirEntry true "output.log"] /\
  lists_vscu [mkDirEntry true "output.log"] = false /\
  fst (start env_no_config 2 initial_world) = Exited /\
  requests (new_events initial_world
              (snd (start env_no_config 2 initial_world))) = [].
Proof.
  assert (H2 : forall n, env_setRun env_no_config n = Gives tt)
    by (intros n; reflexivity).
  split; [exact H2|].
  split; [reflexivity|]. split; [reflexivity|].
  destruct (start_without_config env_no_config 2 initial_world
              [mkDirEntry true "output.log"] H2 eq_refl eq_refl)
    as (R & shown & E & C).
  split; [exact R|]. rewrite E.
  destruct C as [[_ ->] | [_ [ms ->]]]; reflexivity.
Defined.

(** ** The notice at the end of a turn (vscode-updater.ts, intervalLoop) *)

Definition done_notice : string := "Update completed successfully!".

(** [m] does not make [done_notice] the last message. *)
Definition keeps_other {A : Type} (m : M A) : Prop :=
  forall w, lastMessage w <> done_notice ->
            lastMessage (snd (m w)) <> done_notice.

(** Everything but exiting; the notification state is kept. *)
Definition fp_quiet : Footprint :=
  mkFootprint (fun _ => true) false true true false.

Lemma keeps_obeys {A} (m : M A) : obeys fp_quiet m -> keeps_other m.
Proof.
  intros O w L. destruct (O w) as [S _].
  rewrite (step_rel_lastMessage fp_quiet _ _ eq_refl S). exact L.
Qed.

Lemma keeps_ret {A} (a : A) : keeps_other (ret a).
Proof. intros w L. exact L. Qed.

Lemma keeps_bind {A B} (m : M A) (f : A -> M B) :
  keeps_other m -> (forall a, keeps_other (f a)) -> keeps_other (bind m f).
Proof.
  intros Hm Hf w L. specialize (Hm w L). unfold bind.
  destruct (m w) as [[a | e |] w1]; cbn [fst snd] in *; auto.
  apply Hf. exact Hm.
Qed.

Lemma keeps_try_rethrow {A} (m : M A) :
  keeps_other m -> keeps_other (try_catch m (fun e => throw e)).
Proof. intros H w L. rewrite try_rethrow. apply H, L. Qed.

Lemma keeps_when b (m : M unit) : keeps_other m -> keeps_other (when b m).
Proof. intros H. destruct b; [exact H | apply keeps_ret]. Qed.

Lemma keeps_notify env title msg :
  msg <> done_notice -> keeps_other (notify env title msg).
Proof. intros N w _. rewrite notify_lastMessage. exact N. Qed.

Lemma keeps_getLocalVersion env : keeps_other (getLocalVersion env).
Proof.
  unfold getLocalVersion. apply keeps_try_rethrow.
  apply keeps_bind;
    [apply keeps_obeys, config_dir_obeys; reflexivity | intros d].
  cbv zeta. apply keeps_bind;
    [apply keeps_obeys, exists_obeys; reflexivity | intros found].
  destruct found.
  - apply keeps_obeys, obeys_answer. reflexivity.
  - apply keeps_bind; [apply keeps_notify; discriminate | intros _].
    apply keeps_ret.
Qed.

Lemma keeps_getLatestVersion env : keeps_other (getLatestVersion env).
Proof. apply keeps_obeys, getLatestVersion_obeys; reflexivity. Qed.

Lemma keeps_checkUpdate env : keeps_other (checkUpdate env).
Proof.
  unfold checkUpdate. apply keeps_try_rethrow.
  apply keeps_bind; [apply keeps_getLocalVersion | intros [local|]].
  - apply keeps_bind; [apply keeps_getLatestVersion | intros latest].
    cbv zeta. apply keeps_bind; [|intros _; apply keeps_ret].
    apply keeps_when, keeps_notify. discriminate.
  - apply keeps_ret.
Qed.

Lemma keeps_updateProcess env : keeps_other (updateProcess env).
Proof.
  unfold updateProcess. apply keeps_try_rethrow.
  apply keeps_bind; [apply keeps_checkUpdate | intros need].
  destruct need; cbn [negb]; [|apply keeps_ret].
  apply keeps_bind; [apply keeps_getLatestVersion | intros [latest|]];
    [|apply keeps_ret].
  apply keeps_bind;
    [apply keeps_obeys, console_debug_obeys; reflexivity | intros _].
  apply keeps_bind;
    [apply keeps_obeys, downloadLatest_obeys; reflexivity | intros p].
  apply keeps_bind;
    [apply keeps_obeys, config_dir_obeys; reflexivity | intros d].
  apply keeps_bind;
    [apply keeps_obeys, decompress_obeys; reflexivity | intros _].
  apply keeps_obeys, removeSync_obeys; reflexivity.
Qed.

Lemma keeps_run env : keeps_other (run env).
Proof.
  unfold run. apply keeps_try_rethrow.
  apply keeps_bind; [apply keeps_checkUpdate | intros need].
  destruct need; [|apply keeps_ret].
  apply keeps_bind;
    [apply keeps_obeys, isProcessRunning_obeys; reflexivity | intros running].
  destruct running; cbn [negb].
  - apply keeps_notify. discriminate.
  - apply keeps_bind; [apply keeps_getLatestVersion | intros latest].
    apply keeps_bind; [|intros _; apply keeps_updateProcess].
    destruct latest as [latest|]; [|apply keeps_ret].
    apply keeps_notify. discriminate.
Qed.

(** What a turn does before its last notice. *)
Definition turn_body (env : Env) : M unit :=
  console_log "Checking configuration file..." ;;
  found <- checkConfig env ;;
  when (negb found)
       (notify env "Vscode Updater Error" "Configuration file not found") ;;
  console_log "Checking for updates..." ;;
  run env.

Lemma intervalLoop_try_turn_body env w :
  intervalLoop_try env w
  = (turn_body env ;; notify env "Vscode Updater" done_notice) w.
Proof.
  unfold intervalLoop_try, turn_body, bind, console_log, emit, modify.
  destruct (checkConfig env _) as [[found | e |] w2]; try reflexivity.
  destruct (when (negb found) _ w2) as [[[] | e |] w3]; reflexivity.
Qed.

Lemma keeps_turn_body env : keeps_other (turn_body env).
Proof.
  unfold turn_body.
  apply keeps_bind;
    [apply keeps_obeys, console_log_obeys; reflexivity | intros _].
  apply keeps_bind;
    [apply keeps_obeys, checkConfig_obeys; reflexivity | intros found].
  apply keeps_bind; [apply keeps_when, keeps_notify; discriminate | intros _].
  apply keeps_bind;
    [apply keeps_obeys, console_log_obeys; reflexivity | intros _].
  apply keeps_run.
Qed.

Lemma turn_body_obeys env : obeys fp_any (turn_body env).
Proof.
  unfold turn_body.
  apply obeys_bind; [apply console_log_obeys; reflexivity | intros _].
  apply obeys_bind; [apply checkConfig_obeys; reflexivity | intros found].
  apply obeys_bind;
    [apply obeys_when, notify_obeys; reflexivity | intros _].
  apply obeys_bind; [apply console_log_obeys; reflexivity | intros _].
  apply run_obeys; reflexivity.
Qed.

(** X19. A turn of the loop whose cycle does not throw ends by asking for the
    notice "Update completed successfully!", whether the cycle updated
    anything or not. No other notice of a turn has that text, so the notice
    is shown, as the last effect of the turn, whenever it was not already
    the last message before the turn; otherwise the turn ends without it. *)
Theorem loop_turn_reports_success :
  forall env w,
    let r := intervalLoop_try env w in
    fst r = Ok tt ->
    lastMessage (snd r) = done_notice /\
    (lastMessage w <> done_notice ->
     exists before ms,
       new_events w (snd r)
       = (before ++ [EvNotifyDelay ms; EvShow "Vscode Updater" done_notice])
         %list).
Proof.
  intros env w r R. subst r.
  rewrite intervalLoop_try_turn_body in *.
  pose proof (keeps_turn_body env w) as K.
  destruct (turn_body_obeys env w) as [(_ & (new & T & _) & _) _].
  unfold bind in *.
  destruct (turn_body env w) as [[[] | e |] w1]; cbn [fst snd] in *;
    try discriminate R.
  destruct (notify_spec env "Vscode Updater" done_notice w1)
    as (w2 & shown & E & T2 & L2 & _ & C).
  rewrite E. cbn [fst snd]. split; [exact L2|].
  intros L. specialize (K L).
  destruct C as [(C & _) | (_ & ms & ->)]; [contradiction|].
  exists new, ms. apply new_events_app. rewrite T2, T, <- app_assoc.
  reflexivity.
Qed.

Lemma loop_turn_reports_success_witness :
  fst (intervalLoop_try env_same initial_world) = Ok tt /\
  updates (new_events initial_world
             (snd (intervalLoop_try env_same initial_world))) = [] /\
  lastMessage (snd (intervalLoop_try env_same initial_world)) = done_notice.
Proof.
  assert (R : fst (intervalLoop_try env_same initial_world) = Ok tt)
    by (vm_compute; reflexivity).
  split; [exact R|]. split; [vm_compute; reflexivity|].
  destruct (loop_turn_reports_success env_same initial_world R) as [L _].
  exact L.
Defined.

(** ** A refused download (updater.ts, downloadLatest) *)





